(** * Mariio-Chat-Beta: the chat relay of [main.go], embedded and verified

    The Go program is a single HTTP handler, [handleChat], that relays a
    chat turn to one of three upstream paths: Gemini text chat
    ([handleTextChat]), Gemini image analysis ([handleImageChat]) and
    Hugging Face image generation ([generateImage]), chosen by a keyword
    heuristic ([detectImageGenerationRequest]).

    The embedding is shallow.  Go strings are [string] (sequences of bytes),
    [[]byte] is [list byte], Go's [int] status codes are [Z], a Go pair
    [(value, error)] is a [result].  Every call the program makes outside
    its own code (HTTP round trips, sleeps, the creation of the Gemini
    client, Gemini calls) is threaded through a state monad whose state is
    the trace of the calls made so far; they are answered by oracles that
    may depend on that whole trace. *)

From Stdlib Require Import ZArith QArith.
From Stdlib.Strings Require Import Ascii String Byte.
From stdpp Require Import base option list strings pretty gmap.

Local Open Scope string_scope.
Local Open Scope list_scope.
Local Open Scope nat_scope.

(** ** Go's [(T, error)] *)

(** An [error] is observed by the program only through its message. *)
Inductive result (A : Type) : Type :=
| Ok (a : A)
| Err (err : string).
Arguments Ok {A} a.
Arguments Err {A} err.

(** ** The parts of Go's standard library the handler uses *)

Module strings.

Definition byteOf (c : ascii) : N := N_of_ascii c.

(** ['A' <= c && c <= 'Z'] *)
Definition isUpperByte (c : ascii) : bool :=
  (65 <=? byteOf c)%N && (byteOf c <=? 90)%N.

(** [c += 'a' - 'A'] on upper-case bytes. *)
Definition lowerByte (c : ascii) : ascii :=
  if isUpperByte c then ascii_of_N (byteOf c + 32) else c.

(** [c < utf8.RuneSelf] for every byte of the string. *)
Fixpoint isASCII (s : string) : bool :=
  match s with
  | EmptyString => true
  | String c s' => (byteOf c <? 128)%N && isASCII s'
  end.

Fixpoint mapBytes (f : ascii → ascii) (s : string) : string :=
  match s with
  | EmptyString => EmptyString
  | String c s' => String (f c) (mapBytes f s')
  end.

(** [strings.HasPrefix(s, prefix)] *)
Fixpoint HasPrefix (s prefix : string) : bool :=
  match prefix, s with
  | EmptyString, _ => true
  | String _ _, EmptyString => false
  | String p prefix', String c s' =>
      if Ascii.eqb c p then HasPrefix s' prefix' else false
  end.

(** [strings.Contains(s, substr)]: some suffix of [s] starts with
    [substr]. *)
Fixpoint Contains (s substr : string) : bool :=
  if HasPrefix s substr then true
  else match s with
       | EmptyString => false
       | String _ s' => Contains s' substr
       end.

Section ToLower.
(** [strings.ToLower] has a byte-wise fast path for ASCII strings and
    otherwise maps [unicode.ToLower] over the decoded runes.  The
    Unicode tables are not part of this repository: the slow path is a
    parameter. *)
Variable unicodeToLower : string → string.

Definition ToLower (s : string) : string :=
  if isASCII s then mapBytes lowerByte s else unicodeToLower s.
End ToLower.

End strings.

Module filepath.

(** [filepath.Ext(path)]: scan from the end for a ['.'], stopping at a
    path separator.  [extFrom] scans left to right and keeps the suffix
    that starts at the last dot seen since the last separator. *)
Fixpoint extFrom (path : string) (ext : string) : string :=
  match path with
  | EmptyString => ext
  | String c rest =>
      if Ascii.eqb c "/" then extFrom rest ""
      else if Ascii.eqb c "." then extFrom rest path
      else extFrom rest ext
  end.

Definition Ext (path : string) : string := extFrom path "".

End filepath.

Module base64.

Definition encodeStd : string :=
  "ABCDEFGHIJKLMNOPQRSTUVWXYZabcdefghijklmnopqrstuvwxyz0123456789+/".

Definition sextet (n : N) : ascii :=
  match String.get (N.to_nat (N.land n 63)) encodeStd with
  | Some c => c
  | None => "="%char
  end.

Definition quad (a b c d : ascii) (rest : string) : string :=
  String a (String b (String c (String d rest))).

(** [base64.StdEncoding.EncodeToString]: three bytes give four
    characters; a final group of one or two bytes is padded with ['=']. *)
Fixpoint EncodeToString (src : list byte) : string :=
  match src with
  | [] => ""
  | [x] =>
      let v := N.shiftl (Byte.to_N x) 16 in
      quad (sextet (N.shiftr v 18)) (sextet (N.shiftr v 12)) "=" "=" ""
  | [x; y] =>
      let v := N.lor (N.shiftl (Byte.to_N x) 16) (N.shiftl (Byte.to_N y) 8) in
      quad (sextet (N.shiftr v 18)) (sextet (N.shiftr v 12))
           (sextet (N.shiftr v 6)) "=" ""
  | x :: y :: z :: rest =>
      let v := N.lor (N.lor (N.shiftl (Byte.to_N x) 16)
                            (N.shiftl (Byte.to_N y) 8)) (Byte.to_N z) in
      quad (sextet (N.shiftr v 18)) (sextet (N.shiftr v 12))
           (sextet (N.shiftr v 6)) (sextet v) (EncodeToString rest)
  end.

End base64.

Module fmt.

(** The [%d] verb on an [int]. *)
Definition d (n : Z) : string := pretty n.

(** The [%v] verb on an [error] value, which may be [nil]. *)
Definition v_error (e : option string) : string :=
  match e with
  | Some msg => msg
  | None => "<nil>"
  end.

End fmt.

(** ** Data model *)

(** [MessagePart]: a part of a message (text or image data). *)
Record MessagePart := {
  Text : string;
  MimeType : string;
  Data : string
}.

(** [Message]: a chat message in the conversation. *)
Record Message := {
  Role : string;
  Parts : list MessagePart
}.

(** [ChatResponse]: the response sent back to the client. *)
Record ChatResponse := {
  Response : string;
  ImageBase64 : string;
  Error : string
}.

(** ** Intent classifier *)

Definition imageKeywords : list string :=
  [ "buat gambar"; "buatkan gambar"; "generate image"; "create image";
    "draw"; "gambar"; "lukis"; "ilustrasi"; "sketch"; "photo";
    "picture"; "image of"; "make a picture"; "make an image" ].

(** [for _, keyword := range imageKeywords { if strings.Contains(text,
    keyword) { return true } }] *)
Fixpoint containsKeyword (text : string) (keywords : list string) : bool :=
  match keywords with
  | [] => false
  | keyword :: rest =>
      if strings.Contains text keyword then true
      else containsKeyword text rest
  end.

Section Classifier.
Variable unicodeToLower : string → string.

Abbreviation ToLower := (strings.ToLower unicodeToLower).

(** The loop over [lastMessage.Parts]. *)
Fixpoint partsMentionImage (parts : list MessagePart) : bool :=
  match parts with
  | [] => false
  | part :: rest =>
      let text := ToLower (Text part) in
      if containsKeyword text imageKeywords then true
      else partsMentionImage rest
  end.

Definition detectImageGenerationRequest
    (prompt : string) (messages : list Message) : bool :=
  let prompt := ToLower prompt in
  if containsKeyword prompt imageKeywords then true
  else match last messages with
       | Some lastMessage => partsMentionImage (Parts lastMessage)
       | None => false
       end.
End Classifier.

(** ** The outside world *)

Module genai.

(** A [genai.Part]: [genai.Text], the value of the call
    [genai.ImageData(format, data)], or any other kind of part a response
    may carry. *)
Inductive Part :=
| Text (text : string)
| ImageData (format : string) (data : list byte)
| OtherPart.

(** The struct [genai.Content]. *)
Record ContentStruct := { Parts : list Part }.

(** [Candidate.Content] is a pointer in the client library: it may be
    [nil]. *)
Record Candidate := { Content : option ContentStruct }.

Record GenerateContentResponse := { Candidates : list Candidate }.

End genai.

Module http.

(** The payload [generateImage] marshals as the request body. *)
Record Parameters := {
  num_inference_steps : Z;
  guidance_scale : Q
}.

Record Payload := {
  inputs : string;
  parameters : option Parameters
}.

(** What the [Body] reader of a request still holds.
    [http.NewRequestWithContext] wraps the [*bytes.Buffer] it is given and
    records its length; sending the request reads the buffer to its end,
    and nothing rewinds it. *)
Inductive BodyReader :=
| NoBody
| Unread (payload : Payload)
| Drained (payload : Payload).

Record Request := {
  Method : string;
  URL : string;
  Header : list (string * string);
  Body : BodyReader
}.

(** The same [*http.Request] after a [Do] that came back with a response:
    method, URL and headers are as they were, the body has been read. *)
Definition sent (req : Request) : Request :=
  {| Method := Method req;
     URL := URL req;
     Header := Header req;
     Body := match Body req with
             | Unread payload => Drained payload
             | body => body
             end |}.

(** An [*http.Response] as the program observes it: its status code and
    what [io.ReadAll(resp.Body)] yields. *)
Record Response := {
  StatusCode : Z;
  ReadAll : result (list byte)
}.

Definition StatusOK : Z := 200.

End http.

(** A [*genai.Client], identified with the API key it was created with. *)
Definition Client := string.

(** The calls the program makes outside its own code, with what came back.
    Creating the Gemini client is one of them although it sends nothing by
    itself: it can fail, and the program branches on that. *)
Inductive Event :=
| EvDo (timeoutSeconds : Z) (req : http.Request) (res : result http.Response)
| EvSleep (seconds : Z)
| EvNewClient (apiKey : string) (err : option string)
| EvGenerateContent (client : Client) (model : string)
                    (parts : list genai.Part)
                    (res : result genai.GenerateContentResponse).

Definition Trace := list Event.

(** The answers of the outside world.  Each may depend on everything that
    happened before. *)
Record Upstream := {
  roundTrip : Trace → Z → http.Request → result http.Response;
  dialGemini : Trace → string → option string;
  geminiReply : Trace → Client → string → list genai.Part →
                result genai.GenerateContentResponse
}.

(** Computations that extend the trace. *)
Definition IO (A : Type) : Type := Trace → A * Trace.

Definition ret {A} (a : A) : IO A := fun t => (a, t).

Definition bind {A B} (m : IO A) (k : A → IO B) : IO B :=
  fun t => let '(a, t') := m t in k a t'.

Declare Scope io_scope.
Delimit Scope io_scope with io.
Notation "'let*' x ':=' m 'in' k" := (bind m (fun x => k))
  (at level 10, x pattern, m at level 100, k at level 200) : io_scope.
Local Open Scope io_scope.

Section Effects.
Variable world : Upstream.

(** [(&http.Client{Timeout: timeout}).Do(req)] *)
Definition clientDo (timeoutSeconds : Z) (req : http.Request)
  : IO (result http.Response) :=
  fun t => let res := roundTrip world t timeoutSeconds req in
           (res, (t ++ [EvDo timeoutSeconds req res])%list).

(** [time.Sleep(seconds * time.Second)] *)
Definition timeSleep (seconds : Z) : IO unit :=
  fun t => (tt, (t ++ [EvSleep seconds])%list).

(** [genai.NewClient(ctx, option.WithAPIKey(apiKey))] *)
Definition NewClient (apiKey : string) : IO (result Client) :=
  fun t => let err := dialGemini world t apiKey in
           (match err with Some e => Err e | None => Ok apiKey end,
            (t ++ [EvNewClient apiKey err])%list).

(** [client.GenerativeModel(model).GenerateContent(ctx, parts...)] *)
Definition GenerateContent (client : Client) (model : string)
    (parts : list genai.Part) : IO (result genai.GenerateContentResponse) :=
  fun t => let res := geminiReply world t client model parts in
           (res, (t ++ [EvGenerateContent client model parts res])%list).
End Effects.

(** A Go call either completes or panics; [net/http] recovers a handler's
    panic and writes nothing more. *)
Inductive Completion (A : Type) : Type :=
| Done (a : A)
| Panic.
Arguments Done {A} a.
Arguments Panic {A}.

(** ** Upstream model gateway (Gemini) *)

Definition textFallback : string :=
  "Maaf, saya tidak dapat menghasilkan respons saat ini.".

Definition imageFallback : string :=
  "Maaf, saya tidak dapat menganalisis gambar ini.".

Definition defaultImagePrompt : string :=
  "Analisis gambar ini dan jelaskan apa yang Anda lihat.".

(** The block both handlers end with:
    [if len(resp.Candidates) > 0 && len(resp.Candidates[0].Content.Parts) > 0
     { if textPart, ok := ....Parts[0].(genai.Text); ok { return textPart } }
     return fallback, nil]. *)
Definition extractText (resp : genai.GenerateContentResponse)
    (fallback : string) : Completion (result string) :=
  match genai.Candidates resp with
  | [] => Done (Ok fallback)
  | candidate :: _ =>
      match genai.Content candidate with
      | None => Panic
      | Some content =>
          match genai.Parts content with
          | genai.Text textPart :: _ => Done (Ok textPart)
          | _ => Done (Ok fallback)
          end
      end
  end.

(** The loop of [handleTextChat] over [lastMsg.Parts]: [promptText] starts
    empty and takes the first non-empty [part.Text]. *)
Fixpoint firstNonEmptyText (parts : list MessagePart) : string :=
  match parts with
  | [] => ""
  | part :: rest =>
      if String.eqb (Text part) "" then firstNonEmptyText rest
      else Text part
  end.

(** The prompt text [handleTextChat] prepares before it calls the model. *)
Definition promptTextOf (messages : list Message) (prompt : string) : string :=
  if negb (String.eqb prompt "") then prompt
  else match last messages with
       | Some lastMsg => firstNonEmptyText (Parts lastMsg)
       | None => ""
       end.

Section Gateway.
Variable world : Upstream.

Definition handleTextChat (client : Client) (messages : list Message)
    (prompt : string) : IO (Completion (result string)) :=
  let promptText := promptTextOf messages prompt in
  if String.eqb promptText "" then
    ret (Done (Err "no text content to send to Gemini"))
  else
    let* r := GenerateContent world client "gemini-1.5-flash"
                              [genai.Text promptText] in
    match r with
    | Err err => ret (Done (Err ("failed to generate content: " +:+ err)))
    | Ok resp => ret (extractText resp textFallback)
    end.

Definition handleImageChat (client : Client) (messages : list Message)
    (imageData : list byte) (mimeType prompt : string)
  : IO (Completion (result string)) :=
  let parts :=
    if negb (String.eqb prompt "") then [genai.Text prompt]
    else [genai.Text defaultImagePrompt] in
  let imagePart := genai.ImageData mimeType imageData in
  let parts := (parts ++ [imagePart])%list in
  let* r := GenerateContent world client "gemini-1.5-flash" parts in
  match r with
  | Err err =>
      ret (Done (Err ("failed to generate content with image: " +:+ err)))
  | Ok resp => ret (extractText resp imageFallback)
  end.
End Gateway.

(** ** Image generation fallback orchestrator (Hugging Face) *)

Definition models : list string :=
  [ "black-forest-labs/FLUX.1-dev";
    "black-forest-labs/FLUX.1-schnell";
    "stabilityai/stable-diffusion-xl-base-1.0";
    "stabilityai/sdxl-turbo";
    "Lykon/DreamShaper";
    "prompthero/openjourney";
    "nitrosocke/Arcane-Diffusion";
    "runwayml/stable-diffusion-v1-5";
    "CompVis/stable-diffusion-v1-4";
    "stabilityai/stable-diffusion-2-1" ].

Definition modelURL (model : string) : string :=
  "https://api-inference.huggingface.co/models/" +:+ model.

(** The request of [checkModelAvailability]. *)
Definition probeRequest (apiKey model : string) : http.Request :=
  {| http.Method := "GET";
     http.URL := modelURL model;
     http.Header := [("Authorization", "Bearer " +:+ apiKey)];
     http.Body := http.NoBody |}.

(** The payload of one generation request; [json.Marshal] cannot fail on
    it, nor can [http.NewRequestWithContext] on the fixed method and URL. *)
Definition payloadFor (prompt model : string) : http.Payload :=
  {| http.inputs := prompt;
     http.parameters :=
       if strings.Contains model "stable-diffusion"
          || strings.Contains model "sdxl"
       then Some {| http.num_inference_steps := 25;
                    http.guidance_scale := 7.5 |}
       else None |}.

Definition generationRequest (apiKey prompt model : string) : http.Request :=
  {| http.Method := "POST";
     http.URL := modelURL model;
     http.Header := [("Authorization", "Bearer " +:+ apiKey);
                     ("Content-Type", "application/json");
                     ("User-Agent", "GeminiChatApp/1.0")];
     http.Body := http.Unread (payloadFor prompt model) |}.

(** How one pass through the generation loop ends: [continue] with
    [lastError] set, or [return imageBase64, nil]. *)
Inductive Step :=
| Continue (lastError : string)
| Return (imageBase64 : string).

(** [modelsToTry]: the working model, then every other model in order. *)
Definition modelsToTry (workingModel : string) : list string :=
  workingModel :: filter (λ model, model ≠ workingModel) models.

Section Orchestrator.
Variable world : Upstream.

(** [json.Unmarshal(body, &errorResp)] into a [map[string]interface{}]
    ([None] when it returns an error), and the [%v] rendering of a decoded
    value. *)
Variable JSONValue : Type.
Variable jsonUnmarshal : list byte → option (gmap string JSONValue).
Variable formatValue : JSONValue → string.

Definition checkModelAvailability (apiKey model : string) : IO bool :=
  let* r := clientDo world 10 (probeRequest apiKey model) in
  match r with
  | Err _ => ret false
  | Ok resp => ret (http.StatusCode resp =? 200)%Z
  end.

(** The probe loop: [workingModel] stays [""] unless a model is ready. *)
Fixpoint findWorkingModel (apiKey : string) (candidates : list string)
  : IO string :=
  match candidates with
  | [] => ret ""
  | model :: rest =>
      let* ready := checkModelAvailability apiKey model in
      if ready then ret model else findWorkingModel apiKey rest
  end.

(** The checks every response reaches once its status is settled: from
    [if resp.StatusCode != http.StatusOK] to the successful return. *)
Definition acceptResponse (model : string) (status : Z) (body : list byte)
  : Step :=
  if negb (status =? http.StatusOK)%Z then
    Continue ("API request failed for model " +:+ model +:+ " with status "
              +:+ fmt.d status +:+ ": " +:+ string_of_list_byte body)
  else
    match jsonUnmarshal body ≫= (.!! "error") with
    | Some errorMsg =>
        Continue ("model " +:+ model +:+ " returned error: "
                  +:+ formatValue errorMsg)
    | None =>
        if (Z.of_nat (length body) <? 100)%Z then
          Continue ("response too short for model " +:+ model)
        else Return (base64.EncodeToString body)
    end.

(** The body of the loop over [modelsToTry].  The retry hands the same
    [req] to [Do] a second time: by then the first [Do] has read its body,
    so the second call receives [http.sent req], not a fresh request.  What
    the transport makes of it is part of the answer of the oracle. *)
Definition tryModel (apiKey prompt model : string) : IO Step :=
  let req := generationRequest apiKey prompt model in
  let* r := clientDo world 60 req in
  match r with
  | Err err => ret (Continue ("failed to send request: " +:+ err))
  | Ok resp =>
      match http.ReadAll resp with
      | Err err => ret (Continue ("failed to read response body: " +:+ err))
      | Ok body =>
          if (http.StatusCode resp =? 503)%Z then
            let* _ := timeSleep 20 in
            let* r2 := clientDo world 60 (http.sent req) in
            match r2 with
            | Err err2 => ret (Continue ("retry failed: " +:+ err2))
            | Ok resp2 =>
                match http.ReadAll resp2 with
                | Err err =>
                    ret (Continue ("failed to read retry response: " +:+ err))
                | Ok body =>
                    ret (acceptResponse model (http.StatusCode resp2) body)
                end
            end
          else if (http.StatusCode resp =? 404)%Z then
            ret (Continue ("model " +:+ model +:+ " not found"))
          else if (http.StatusCode resp =? 401)%Z then
            ret (Continue "unauthorized - invalid API key")
          else if (http.StatusCode resp =? 429)%Z then
            ret (Continue "rate limit exceeded")
          else
            ret (acceptResponse model (http.StatusCode resp) body)
      end
  end.

Definition exhausted (lastError : option string) : string :=
  "all image generation models failed, last error: "
  +:+ fmt.v_error lastError.

(** The generation loop. *)
Fixpoint tryModels (apiKey prompt : string) (candidates : list string)
    (lastError : option string) : IO (result string) :=
  match candidates with
  | [] => ret (Err (exhausted lastError))
  | model :: rest =>
      let* step := tryModel apiKey prompt model in
      match step with
      | Return imageBase64 => ret (Ok imageBase64)
      | Continue err => tryModels apiKey prompt rest (Some err)
      end
  end.

(** The probe phase: the model [generateImage] will try first. *)
Definition preferredModel (apiKey : string) : IO string :=
  let* workingModel := findWorkingModel apiKey models in
  if String.eqb workingModel "" then ret (hd "" models)
  else ret workingModel.

Definition generateImage (apiKey prompt : string) : IO (result string) :=
  let* workingModel := preferredModel apiKey in
  tryModels apiKey prompt (modelsToTry workingModel) None.
End Orchestrator.

(** ** Request dispatcher *)

Module server.

(** The uploaded file: [fileHeader.Filename] and what [io.ReadAll(file)]
    yields. *)
Record Upload := {
  Filename : string;
  Contents : result (list byte)
}.

(** The incoming [*http.Request] as [handleChat] reads it. *)
Record Request := {
  Method : string;
  ParseMultipartForm : option string;
  FormValue : string → string;
  FormFile : string → result Upload
}.

(** What the handler wrote: [w.WriteHeader(status)] and the encoded
    [ChatResponse]; [None] when it returned without writing. *)
Definition Written := option (Z * ChatResponse).

End server.

Definition StatusBadRequest : Z := 400.
Definition StatusMethodNotAllowed : Z := 405.
Definition StatusInternalServerError : Z := 500.

Definition sendErrorResponse (errorMsg : string) (statusCode : Z)
  : server.Written :=
  Some (statusCode, {| Response := ""; ImageBase64 := ""; Error := errorMsg |}).

Definition acknowledgement : string :=
  "Saya telah membuat gambar sesuai permintaan Anda!".

Section Dispatcher.
Variable world : Upstream.
Variable unicodeToLower : string → string.
Variable JSONValue : Type.
Variable jsonUnmarshal : list byte → option (gmap string JSONValue).
Variable formatValue : JSONValue → string.

(** [json.Unmarshal([]byte(messagesJSON), &messages)] *)
Variable unmarshalMessages : string → result (list Message).

(** [http.DetectContentType] *)
Variable DetectContentType : list byte → string.

(** The [switch ext] of [handleChat]: the MIME type from the file
    extension, else from the content. *)
Definition detectMimeType (filename : string) (imageData : list byte)
  : string :=
  let ext := strings.ToLower unicodeToLower (filepath.Ext filename) in
  if String.eqb ext ".jpg" || String.eqb ext ".jpeg" then "image/jpeg"
  else if String.eqb ext ".png" then "image/png"
  else if String.eqb ext ".gif" then "image/gif"
  else if String.eqb ext ".webp" then "image/webp"
  else
    let mimeType := DetectContentType imageData in
    if negb (strings.HasPrefix mimeType "image/") then "image/jpeg"
    else mimeType.

(** [handleChat] from [isImageGeneration := ...] on: the request is
    parsed, [image] is the uploaded file's bytes and MIME type if any. *)
Definition dispatch (geminiAPIKey huggingFaceAPIKey : string)
    (messages : list Message) (prompt : string)
    (image : option (list byte * string))
  : IO (Completion server.Written) :=
  let isImageGeneration :=
    detectImageGenerationRequest unicodeToLower prompt messages in
  if isImageGeneration then
    let* r := generateImage world JSONValue jsonUnmarshal formatValue
                            huggingFaceAPIKey prompt in
    match r with
    | Err err =>
        ret (Done (sendErrorResponse ("Failed to generate image: " +:+ err)
                                     StatusInternalServerError))
    | Ok imageBase64 =>
        ret (Done (Some (http.StatusOK,
                         {| Response := acknowledgement;
                            ImageBase64 := imageBase64;
                            Error := "" |})))
    end
  else
    let* c := NewClient world geminiAPIKey in
    match c with
    | Err err =>
        ret (Done (sendErrorResponse
                     ("Failed to initialize Gemini client: " +:+ err)
                     StatusInternalServerError))
    | Ok client =>
        let* r :=
          match image with
          | Some (imageData, mimeType) =>
              handleImageChat world client messages imageData mimeType prompt
          | None => handleTextChat world client messages prompt
          end in
        match r with
        | Panic => ret Panic
        | Done (Err err) =>
            ret (Done (sendErrorResponse
                         ("Failed to get response from Gemini: " +:+ err)
                         StatusInternalServerError))
        | Done (Ok response) =>
            ret (Done (Some (http.StatusOK,
                             {| Response := response;
                                ImageBase64 := "";
                                Error := "" |})))
        end
    end.

Definition handleChat (r : server.Request)
    (geminiAPIKey huggingFaceAPIKey : string)
  : IO (Completion server.Written) :=
  if String.eqb (server.Method r) "OPTIONS" then ret (Done None)
  else if negb (String.eqb (server.Method r) "POST") then
    ret (Done (sendErrorResponse "Method not allowed"
                                 StatusMethodNotAllowed))
  else
    match server.ParseMultipartForm r with
    | Some err =>
        ret (Done (sendErrorResponse ("Failed to parse form data: " +:+ err)
                                     StatusBadRequest))
    | None =>
        let messagesJSON := server.FormValue r "messages" in
        if String.eqb messagesJSON "" then
          ret (Done (sendErrorResponse "Messages field is required"
                                       StatusBadRequest))
        else
          match unmarshalMessages messagesJSON with
          | Err err =>
              ret (Done (sendErrorResponse
                           ("Failed to parse messages JSON: " +:+ err)
                           StatusBadRequest))
          | Ok messages =>
              let prompt := server.FormValue r "prompt" in
              match server.FormFile r "image" with
              | Err _ =>
                  dispatch geminiAPIKey huggingFaceAPIKey messages prompt None
              | Ok file =>
                  match server.Contents file with
                  | Err err =>
                      ret (Done (sendErrorResponse
                                   ("Failed to read image data: " +:+ err)
                                   StatusBadRequest))
                  | Ok imageData =>
                      let mimeType :=
                        detectMimeType (server.Filename file) imageData in
                      dispatch geminiAPIKey huggingFaceAPIKey messages prompt
                               (Some (imageData, mimeType))
                  end
              end
          end
    end.
End Dispatcher.

(** * Properties *)

(** ** Substrings *)

(** [substr] occurs in [s] at some position. *)
Definition IsSubstring (substr s : string) : Prop :=
  ∃ before after, s = before +:+ substr +:+ after.

Lemma HasPrefix_spec s prefix :
  strings.HasPrefix s prefix = true ↔ ∃ rest, s = prefix +:+ rest.
Proof.
  revert s. induction prefix as [|p prefix IH]; intros s.
  - split; [intros _; by exists s | by destruct s].
  - destruct s as [|c s]; simpl.
    + split; [done | by intros [rest ?]].
    + destruct (Ascii.eqb_spec c p) as [->|Hne].
      * rewrite IH. split; intros [rest Hrest]; exists rest.
        -- by rewrite Hrest.
        -- by injection Hrest.
      * split; [done | intros [rest Hrest]; injection Hrest; congruence].
Qed.

Lemma Contains_unfold s substr :
  strings.Contains s substr =
  if strings.HasPrefix s substr then true
  else match s with
       | EmptyString => false
       | String _ s' => strings.Contains s' substr
       end.
Proof. by destruct s. Qed.

Lemma Contains_spec s substr :
  strings.Contains s substr = true ↔ IsSubstring substr s.
Proof.
  induction s as [|c s IH]; rewrite Contains_unfold.
  - destruct (strings.HasPrefix "" substr) eqn:Hp.
    + split; [intros _ | done].
      apply HasPrefix_spec in Hp as [rest Hrest]. by exists "", rest.
    + split; [done | intros ([|? before] & after & Heq); simpl in Heq].
      * assert (strings.HasPrefix "" substr = true); [| congruence].
        apply HasPrefix_spec. by exists after.
      * discriminate.
  - destruct (strings.HasPrefix (String c s) substr) eqn:Hp.
    + split; [intros _ | done].
      apply HasPrefix_spec in Hp as [rest Hrest]. by exists "", rest.
    + rewrite IH. split.
      * intros (before & after & ->). by exists (String c before), after.
      * intros ([|c' before] & after & Heq); simpl in Heq.
        -- assert (strings.HasPrefix (String c s) substr = true);
             [| congruence].
           apply HasPrefix_spec. by exists after.
        -- injection Heq as -> ->. by exists before, after.
Qed.

Lemma containsKeyword_spec text keywords :
  containsKeyword text keywords = true
  ↔ ∃ keyword, keyword ∈ keywords ∧ IsSubstring keyword text.
Proof.
  induction keywords as [|k keywords IH]; simpl.
  - split; [done | intros (? & Hin & _); by apply elem_of_nil in Hin].
  - destruct (strings.Contains text k) eqn:Hc.
    + split; [intros _ | done].
      exists k. split; [left | by apply Contains_spec].
    + rewrite IH. split.
      * intros (kw & Hin & Hsub). exists kw. split; [by right | done].
      * intros (kw & Hin & Hsub). apply elem_of_cons in Hin as [->|Hin].
        -- apply Contains_spec in Hsub. congruence.
        -- by exists kw.
Qed.

(** ** C4: the intent classifier *)

Section ClassifierFacts.
Variable unicodeToLower : string → string.

(** Some configured keyword occurs in the lower-cased [text]. *)
Definition mentionsImage (text : string) : Prop :=
  ∃ keyword, keyword ∈ imageKeywords
             ∧ IsSubstring keyword (strings.ToLower unicodeToLower text).

Lemma partsMentionImage_spec parts :
  partsMentionImage unicodeToLower parts = true
  ↔ ∃ part, part ∈ parts ∧ mentionsImage (Text part).
Proof.
  induction parts as [|p parts IH]; cbn [partsMentionImage].
  - split; [done | intros (? & Hin & _); by apply elem_of_nil in Hin].
  - destruct (containsKeyword _ imageKeywords) eqn:Hk.
    + split; [intros _ | done].
      exists p. split; [left | by apply containsKeyword_spec].
    + rewrite IH. split.
      * intros (part & Hin & Hm). exists part. split; [by right | done].
      * intros (part & Hin & Hm). apply elem_of_cons in Hin as [->|Hin].
        -- apply containsKeyword_spec in Hm. congruence.
        -- by exists part.
Qed.

(** C4.  [detectImageGenerationRequest] answers [true] exactly when a
    configured keyword occurs, at any position, in the lower-cased prompt
    or in the lower-cased text of some part of the last message of the
    history; with no such occurrence it answers [false]. *)
Theorem detectImageGenerationRequest_spec prompt messages :
  detectImageGenerationRequest unicodeToLower prompt messages = true
  ↔ mentionsImage prompt
    ∨ ∃ lastMessage part,
        last messages = Some lastMessage
        ∧ part ∈ Parts lastMessage
        ∧ mentionsImage (Text part).
Proof.
  unfold detectImageGenerationRequest.
  destruct (containsKeyword _ imageKeywords) eqn:Hk.
  - split; [intros _ | done]. left. by apply containsKeyword_spec.
  - assert (¬ mentionsImage prompt) as Hno.
    { intros Hm. apply containsKeyword_spec in Hm. congruence. }
    destruct (last messages) as [lastMessage|].
    + rewrite partsMentionImage_spec. split.
      * intros (part & Hin & Hm). right. by exists lastMessage, part.
      * intros [Hm | (m & part & [= <-] & Hin & Hm)]; [done |].
        by exists part.
    + split; [done | intros [Hm | (m & part & Heq & _)]; done].
Qed.
End ClassifierFacts.

(** ** C6, C7, C9: the Gemini gateway *)

(** The effective prompt in the words of the specification: the prompt if
    it is non-empty, else the first non-empty text among the parts of the
    last message; [None] if neither yields text. *)
Definition effectivePrompt (messages : list Message) (prompt : string)
  : option string :=
  if decide (prompt ≠ "") then Some prompt
  else lastMsg ← last messages;
       head (filter (λ text, text ≠ "") (Text <$> Parts lastMsg)).

Lemma eqb_empty_decide (s : string) :
  String.eqb s "" = bool_decide (s = "").
Proof.
  destruct (String.eqb_spec s "") as [->|Hne]; [done |].
  by rewrite bool_decide_eq_false_2.
Qed.

Lemma firstNonEmptyText_head parts :
  firstNonEmptyText parts =
  default "" (head (filter (λ text, text ≠ "") (Text <$> parts))).
Proof.
  induction parts as [|part parts IH]; [done |].
  cbn [firstNonEmptyText]. rewrite fmap_cons, filter_cons, eqb_empty_decide.
  case_bool_decide as Hempty; case_decide; done.
Qed.

Lemma head_filter_nonempty (texts : list string) text :
  head (filter (λ text, text ≠ "") texts) = Some text → text ≠ "".
Proof.
  intros Hhead. apply head_Some_elem_of in Hhead.
  by apply list_elem_of_filter in Hhead as [? _].
Qed.

Lemma effectivePrompt_nonempty messages prompt text :
  effectivePrompt messages prompt = Some text → text ≠ "".
Proof.
  unfold effectivePrompt. case_decide; [congruence |].
  destruct (last messages) as [lastMsg|]; [| done]. simpl.
  apply head_filter_nonempty.
Qed.

Lemma promptTextOf_effective messages prompt :
  promptTextOf messages prompt = default "" (effectivePrompt messages prompt).
Proof.
  unfold promptTextOf, effectivePrompt. rewrite eqb_empty_decide.
  case_bool_decide; case_decide; try done.
  destruct (last messages) as [lastMsg|]; [| done].
  apply firstNonEmptyText_head.
Qed.

Lemma filter_nonempty_nil (texts : list string) :
  filter (λ text, text ≠ "") texts = [] ↔ Forall (λ text, text = "") texts.
Proof.
  induction texts as [|text texts IH]; [done |].
  rewrite filter_cons, Forall_cons. case_decide as Hne.
  - split; [done | intros [? _]; done].
  - rewrite IH. split; [| by intros [_ ?]].
    split; [| done]. by destruct (decide (text = "")).
Qed.

Lemma effectivePrompt_None messages prompt :
  effectivePrompt messages prompt = None
  ↔ prompt = ""
    ∧ ∀ lastMsg part, last messages = Some lastMsg →
                      part ∈ Parts lastMsg → Text part = "".
Proof.
  unfold effectivePrompt. case_decide as Hp.
  - split; [done | by intros [? _]].
  - assert (prompt = "") as -> by (by destruct (decide (prompt = ""))).
    destruct (last messages) as [lastMsg|]; simpl.
    + rewrite head_None, filter_nonempty_nil, Forall_fmap, Forall_forall.
      split.
      * intros Hall. split; [done |]. intros ? part [= <-] Hin.
        by apply Hall.
      * intros [_ Hall] part Hin. by eapply Hall.
    + split; [| done]. intros _. split; [done |]. by intros.
Qed.

Section GatewayFacts.
Variable world : Upstream.

(** C6.  [handleTextChat] sends the effective prompt (the prompt if
    non-empty, else the first non-empty text part of the last message) as
    one text part to the model; when there is none (empty prompt and
    either an empty history or a last message without a non-empty text
    part) it fails with the no-content error and the trace is unchanged:
    the upstream model is not called. *)
Theorem handleTextChat_effective_prompt client messages prompt t :
  handleTextChat world client messages prompt t =
    match effectivePrompt messages prompt with
    | None => (Done (Err "no text content to send to Gemini"), t)
    | Some text =>
        let res := geminiReply world t client "gemini-1.5-flash"
                               [genai.Text text] in
        (match res with
         | Err err => Done (Err ("failed to generate content: " +:+ err))
         | Ok resp => extractText resp textFallback
         end,
         (t ++ [EvGenerateContent client "gemini-1.5-flash"
                                  [genai.Text text] res])%list)
    end
  ∧ (effectivePrompt messages prompt = None
     ↔ prompt = ""
       ∧ ∀ lastMsg part, last messages = Some lastMsg →
                         part ∈ Parts lastMsg → Text part = "").
Proof.
  split; [| apply effectivePrompt_None].
  unfold handleTextChat. rewrite promptTextOf_effective.
  destruct (effectivePrompt messages prompt) as [text|] eqn:Heff; [| done].
  apply effectivePrompt_nonempty in Heff. simpl.
  destruct (String.eqb_spec text "") as [|_]; [done |].
  unfold bind, GenerateContent. simpl.
  by destruct (geminiReply world t client _ _).
Qed.

(** A response without a usable candidate in the sense of C7: no candidate
    at all, or a first candidate whose first part is not text. *)
Definition noUsableCandidate (resp : genai.GenerateContentResponse) : Prop :=
  genai.Candidates resp = []
  ∨ ∃ candidate others content part parts,
      genai.Candidates resp = candidate :: others
      ∧ genai.Content candidate = Some content
      ∧ genai.Parts content = part :: parts
      ∧ ∀ text, part ≠ genai.Text text.

Lemma extractText_fallback resp fallback :
  noUsableCandidate resp → extractText resp fallback = Done (Ok fallback).
Proof.
  unfold extractText.
  intros [-> | (candidate & others & content & part & parts
                & -> & -> & -> & Hpart)]; [done |].
  destruct part; [by destruct (Hpart text) | done | done].
Qed.

Lemma snoc_inv_event (t : Trace) (e e' : Event) :
  (t ++ [e])%list = (t ++ [e'])%list → e = e'.
Proof. intros Heq. apply app_inv_head in Heq. by injection Heq. Qed.

Lemma not_snoc_self (t : Trace) (e : Event) : t ≠ (t ++ [e])%list.
Proof.
  intros Heq. apply (f_equal length) in Heq.
  rewrite length_app in Heq. simpl in Heq. lia.
Qed.

(** C7.  When the call to the model succeeded (the event it appended to the
    trace carries a response and no error) and the response has no
    candidates, or its first candidate's first part is not text,
    [handleTextChat] and [handleImageChat] return their fallback strings
    with a nil error. *)
Theorem fallback_without_usable_candidate
    client messages imageData mimeType prompt t c model parts resp :
  noUsableCandidate resp →
  ((handleTextChat world client messages prompt t).2
     = (t ++ [EvGenerateContent c model parts (Ok resp)])%list →
   (handleTextChat world client messages prompt t).1
     = Done (Ok textFallback))
  ∧ ((handleImageChat world client messages imageData mimeType prompt t).2
       = (t ++ [EvGenerateContent c model parts (Ok resp)])%list →
     (handleImageChat world client messages imageData mimeType prompt t).1
       = Done (Ok imageFallback)).
Proof.
  intros Hresp. split.
  - unfold handleTextChat.
    destruct (String.eqb _ "").
    + intros Ht. by apply not_snoc_self in Ht.
    + unfold bind, GenerateContent. simpl.
      destruct (geminiReply world t client _ _) as [resp'|err]; simpl;
        intros Ht; apply snoc_inv_event in Ht; [| done].
      injection Ht as _ _ _ ->. by apply extractText_fallback.
  - unfold handleImageChat, bind, GenerateContent. simpl.
    destruct (geminiReply world t client _ _) as [resp'|err]; simpl;
      intros Ht; apply snoc_inv_event in Ht; [| done].
    injection Ht as _ _ _ ->. by apply extractText_fallback.
Qed.

(** C9.  [handleTextChat] looks at the history only through its last
    message: on two histories with the same last message it makes the same
    call and returns the same result; with a non-empty prompt the history
    is not looked at and the prompt alone is sent. *)
Theorem handleTextChat_history_independence
    client messages1 messages2 prompt t :
  (last messages1 = last messages2 →
   handleTextChat world client messages1 prompt t
   = handleTextChat world client messages2 prompt t)
  ∧ (prompt ≠ "" →
     handleTextChat world client messages1 prompt t
     = handleTextChat world client messages2 prompt t
     ∧ (handleTextChat world client messages1 prompt t).2
       = (t ++ [EvGenerateContent client "gemini-1.5-flash"
                  [genai.Text prompt]
                  (geminiReply world t client "gemini-1.5-flash"
                               [genai.Text prompt])])%list).
Proof.
  split.
  - intros Hlast. unfold handleTextChat, promptTextOf. by rewrite Hlast.
  - intros Hprompt.
    assert (∀ messages, promptTextOf messages prompt = prompt) as Htext.
    { intros messages. unfold promptTextOf.
      by destruct (String.eqb_spec prompt ""). }
    unfold handleTextChat. rewrite !Htext.
    split; [done |].
    destruct (String.eqb_spec prompt ""); [done |].
    unfold bind, GenerateContent. simpl.
    by destruct (geminiReply world t client _ _).
Qed.
End GatewayFacts.

(** ** C1, C2, C3: the fallback orchestrator *)

(** The responses to the generation requests sent to [model], in order. *)
Definition postsTo (model : string) (t : Trace) : list (result http.Response) :=
  omap (λ e, match e with
             | EvDo _ req res =>
                 if decide (http.Method req = "POST"
                            ∧ http.URL req = modelURL model)
                 then Some res else None
             | _ => None
             end) t.

(** The sleeps of a trace, in seconds. *)
Definition sleepsOf (t : Trace) : list Z :=
  omap (λ e, match e with EvSleep seconds => Some seconds | _ => None end) t.

(** A probe answered "ready": the GET came back with status 200. *)
Definition Ready (res : result http.Response) : Prop :=
  ∃ resp, res = Ok resp ∧ http.StatusCode resp = 200%Z.

(** A "model loading" answer that reaches the status dispatch: status 503
    with a body that was read without error. *)
Definition Loading (res : result http.Response) : Prop :=
  ∃ resp body, res = Ok resp ∧ http.StatusCode resp = 503%Z
               ∧ http.ReadAll resp = Ok body.

(** Status 200. *)
Definition Status200 (res : result http.Response) : Prop :=
  ∃ resp, res = Ok resp ∧ http.StatusCode resp = 200%Z.

Lemma modelURL_inj model1 model2 :
  modelURL model1 = modelURL model2 → model1 = model2.
Proof. unfold modelURL. apply String.app_inj. Qed.

Section OrchestratorFacts.
Variable world : Upstream.
Variable JSONValue : Type.
Variable jsonUnmarshal : list byte → option (gmap string JSONValue).
Variable formatValue : JSONValue → string.
Variables apiKey prompt : string.

Abbreviation GET model res := (EvDo 10 (probeRequest apiKey model) res).
Abbreviation POST model res :=
  (EvDo 60 (generationRequest apiKey prompt model) res).
Abbreviation RETRY model res :=
  (EvDo 60 (http.sent (generationRequest apiKey prompt model)) res).
Abbreviation tryModel' :=
  (tryModel world JSONValue jsonUnmarshal formatValue apiKey prompt).
Abbreviation tryModels' :=
  (tryModels world JSONValue jsonUnmarshal formatValue apiKey prompt).
Abbreviation generateImage' :=
  (generateImage world JSONValue jsonUnmarshal formatValue apiKey prompt).

(** The response is an image with bytes [body]: status 200, at least 100
    bytes, and not a JSON object with an [error] field. *)
Definition Accepted (res : result http.Response) (body : list byte) : Prop :=
  ∃ resp, res = Ok resp
          ∧ http.StatusCode resp = 200%Z
          ∧ http.ReadAll resp = Ok body
          ∧ (100 ≤ length body)%nat
          ∧ jsonUnmarshal body ≫= (.!! "error") = None.

Definition Rejected (res : result http.Response) : Prop :=
  ∀ body, ¬ Accepted res body.

(** What the last response of a pass through the loop decides. *)
Definition Decides (res : result http.Response) (step : Step) : Prop :=
  match step with
  | Return imageBase64 =>
      ∃ body, Accepted res body ∧ imageBase64 = base64.EncodeToString body
  | Continue _ => Rejected res
  end.

(** One pass through the generation loop for [model]: the events it adds
    to the trace and how it ends.  The second call of a retried pass is
    handed the request the first call has already sent. *)
Inductive Pass (model : string) : Trace → Step → Prop :=
| PassOnce res step :
    ¬ Loading res → Decides res step →
    Pass model [POST model res] step
| PassRetried res1 res2 step :
    Loading res1 → Decides res2 step →
    Pass model [POST model res1; EvSleep 20; RETRY model res2] step.

Lemma acceptResponse_Decides model resp body :
  http.ReadAll resp = Ok body →
  Decides (Ok resp)
          (acceptResponse JSONValue jsonUnmarshal formatValue model
                          (http.StatusCode resp) body).
Proof.
  intros Hbody. unfold acceptResponse, http.StatusOK.
  destruct (Z.eqb_spec (http.StatusCode resp) 200) as [Hs|Hs]; simpl.
  - destruct (jsonUnmarshal body ≫= (.!! "error")) as [errorMsg|] eqn:Hjson.
    + intros body' (resp' & [= <-] & _ & Hbody' & _ & Hnone). congruence.
    + destruct (Z.ltb_spec (Z.of_nat (length body)) 100) as [Hlen|Hlen].
      * intros body' (resp' & [= <-] & _ & Hbody' & Hlen' & _).
        assert (body' = body) as -> by congruence. lia.
      * exists body. split; [| done].
        exists resp. repeat split; [done .. | lia | done].
  - intros body' (resp' & [= <-] & Hs' & _). congruence.
Qed.

Lemma Rejected_status resp :
  http.StatusCode resp ≠ 200%Z → Rejected (Ok resp).
Proof. intros Hs body (resp' & [= <-] & Hs' & _). congruence. Qed.

Lemma Rejected_unreadable resp err :
  http.ReadAll resp = Err err → Rejected (Ok resp).
Proof. intros Hr body (resp' & [= <-] & _ & Hr' & _). congruence. Qed.

Lemma Rejected_Err err : Rejected (Err err).
Proof. by intros body (resp' & [=] & _). Qed.

Lemma not_Loading_Err err : ¬ Loading (Err err).
Proof. by intros (resp & body & [=] & _). Qed.

Lemma not_Loading_unreadable resp err :
  http.ReadAll resp = Err err → ¬ Loading (Ok resp).
Proof. intros Hr (resp' & body & [= <-] & _ & Hr'). congruence. Qed.

Lemma not_Loading_status resp :
  http.StatusCode resp ≠ 503%Z → ¬ Loading (Ok resp).
Proof. intros Hs (resp' & body & [= <-] & Hs' & _). congruence. Qed.

(** Every pass of the code is a [Pass]. *)
Lemma tryModel_Pass model t :
  ∃ seg, (tryModel' model t).2 = (t ++ seg)%list
         ∧ Pass model seg (tryModel' model t).1.
Proof.
  unfold tryModel, bind, clientDo, timeSleep, ret.
  set (req := generationRequest apiKey prompt model).
  destruct (roundTrip world t 60 req) as [resp|err] eqn:Hres; simpl.
  2: { eexists. split; [done |].
       apply PassOnce; [apply not_Loading_Err | apply Rejected_Err]. }
  destruct (http.ReadAll resp) as [body|err] eqn:Hbody; simpl.
  2: { eexists. split; [done |].
       apply PassOnce; [by eapply not_Loading_unreadable
                       | by eapply Rejected_unreadable]. }
  destruct (Z.eqb_spec (http.StatusCode resp) 503) as [H503|H503]; simpl.
  - set (t1 := ((t ++ [EvDo 60 req (Ok resp)]) ++ [EvSleep 20])%list).
    exists [POST model (Ok resp); EvSleep 20;
            RETRY model (roundTrip world t1 60 (http.sent req))].
    assert (Loading (Ok resp)) as Hloading by (by exists resp, body).
    destruct (roundTrip world t1 60 (http.sent req)) as [resp2|err2] eqn:Hres2;
      simpl.
    2: { split; [by subst t1; rewrite <- !app_assoc |].
         apply PassRetried; [done | apply Rejected_Err]. }
    destruct (http.ReadAll resp2) as [body2|err2] eqn:Hbody2; simpl.
    2: { split; [by subst t1; rewrite <- !app_assoc |].
         apply PassRetried; [done | by eapply Rejected_unreadable]. }
    split; [by subst t1; rewrite <- !app_assoc |].
    apply PassRetried; [done | by apply acceptResponse_Decides].
  - exists [POST model (Ok resp)].
    destruct (Z.eqb_spec (http.StatusCode resp) 404) as [H404|H404]; simpl.
    { split; [done |]. apply PassOnce; [by apply not_Loading_status |].
      apply Rejected_status. lia. }
    destruct (Z.eqb_spec (http.StatusCode resp) 401) as [H401|H401]; simpl.
    { split; [done |]. apply PassOnce; [by apply not_Loading_status |].
      apply Rejected_status. lia. }
    destruct (Z.eqb_spec (http.StatusCode resp) 429) as [H429|H429]; simpl.
    { split; [done |]. apply PassOnce; [by apply not_Loading_status |].
      apply Rejected_status. lia. }
    split; [done |]. apply PassOnce; [by apply not_Loading_status |].
    by apply acceptResponse_Decides.
Qed.

(** The generation phase over [candidates]: the events it adds to the trace
    and its result.  Each candidate in turn makes one pass; a pass that
    ends in [Continue] hands over to the next candidate, a pass that ends
    in [Return] ends the phase. *)
Inductive Generation
  : list string → option string → Trace → result string → Prop :=
| GenExhausted lastError :
    Generation [] lastError [] (Err (exhausted lastError))
| GenReturn model later lastError seg imageBase64 :
    Pass model seg (Return imageBase64) →
    Generation (model :: later) lastError seg (Ok imageBase64)
| GenContinue model rest lastError seg cause gen res :
    Pass model seg (Continue cause) →
    Generation rest (Some cause) gen res →
    Generation (model :: rest) lastError (seg ++ gen)%list res.

Lemma tryModels_Generation candidates lastError t :
  ∃ gen, (tryModels' candidates lastError t).2 = (t ++ gen)%list
         ∧ Generation candidates lastError gen
                      (tryModels' candidates lastError t).1.
Proof.
  revert lastError t.
  induction candidates as [|model rest IH]; intros lastError t.
  - exists []. split; [by rewrite app_nil_r | constructor].
  - cbn [tryModels]. unfold bind.
    destruct (tryModel_Pass model t) as (seg & Ht & Hpass).
    destruct (tryModel' model t) as [[cause|imageBase64] t1];
      simpl in Ht, Hpass; subst t1.
    + destruct (IH (Some cause) (t ++ seg)%list) as (gen & Ht' & Hgen).
      exists (seg ++ gen)%list. split; [by rewrite Ht', app_assoc |].
      by econstructor.
    + exists seg. split; [done | by constructor].
Qed.

(** When the loop runs out of candidates the error carries the cause that
    the pass of the last candidate recorded. *)
Lemma tryModels_exhausted candidates lastError t msg :
  (tryModels' candidates lastError t).1 = Err msg →
  (candidates = [] ∧ msg = exhausted lastError)
  ∨ ∃ earlier lastModel t0 cause,
      candidates = (earlier ++ [lastModel])%list
      ∧ tryModel' lastModel t0
        = (Continue cause, (tryModels' candidates lastError t).2)
      ∧ msg = exhausted (Some cause).
Proof.
  revert lastError t.
  induction candidates as [|model rest IH]; intros lastError t.
  - intros [= <-]. by left.
  - cbn [tryModels]. unfold bind.
    destruct (tryModel' model t) as [[cause|imageBase64] t1] eqn:Htry;
      [| done].
    intros Hmsg. right.
    destruct (IH (Some cause) t1 Hmsg)
      as [[-> ->] | (earlier & lastModel & t0 & cause' & -> & Hlast & ->)].
    + by exists [], model, t, cause.
    + by exists (model :: earlier), lastModel, t0, cause'.
Qed.

(** *** Counting the requests of a generation phase *)

Lemma postsTo_app model (t1 t2 : Trace) :
  postsTo model (t1 ++ t2) = (postsTo model t1 ++ postsTo model t2)%list.
Proof. apply omap_app. Qed.

Lemma postsTo_POST model model' res :
  postsTo model [POST model' res]
  = if decide (model' = model) then [res] else [].
Proof.
  unfold postsTo. cbn. case_decide as Hurl; case_decide as Hm; try done.
  - destruct Hurl as [_ Hurl]. by apply modelURL_inj in Hurl.
  - subst. by destruct Hurl.
Qed.

Lemma postsTo_RETRY model model' res :
  postsTo model [RETRY model' res]
  = if decide (model' = model) then [res] else [].
Proof. apply postsTo_POST. Qed.

Lemma postsTo_Pass_other model model' seg step :
  Pass model seg step → model ≠ model' → postsTo model' seg = [].
Proof.
  intros Hpass Hne. destruct Hpass.
  - rewrite postsTo_POST. by case_decide.
  - change (postsTo model' ([POST model res1] ++ [EvSleep 20]
                            ++ [RETRY model res2]) = []).
    rewrite !postsTo_app, postsTo_POST, postsTo_RETRY. by case_decide.
Qed.

Lemma postsTo_Pass model seg step :
  Pass model seg step →
  (∃ res, postsTo model seg = [res] ∧ ¬ Loading res ∧ Decides res step)
  ∨ (∃ res1 res2, postsTo model seg = [res1; res2]
                  ∧ Loading res1 ∧ Decides res2 step).
Proof.
  intros Hpass. destruct Hpass.
  - left. exists res. rewrite postsTo_POST. by case_decide.
  - right. exists res1, res2.
    change (postsTo model ([POST model res1] ++ [EvSleep 20]
                           ++ [RETRY model res2]) = [res1; res2]
            ∧ Loading res1 ∧ Decides res2 step).
    rewrite !postsTo_app, postsTo_POST, postsTo_RETRY. by case_decide.
Qed.

Lemma Loading_Rejected res : Loading res → Rejected res.
Proof.
  intros (resp & body & -> & Hs & _). apply Rejected_status. lia.
Qed.

Lemma Generation_untouched candidates lastError gen res model :
  Generation candidates lastError gen res →
  model ∉ candidates → postsTo model gen = [].
Proof.
  induction 1 as [| m later le seg img Hpass
                  | m rest le seg cause gen res Hpass Hgen IH];
    intros Hnotin.
  - done.
  - eapply postsTo_Pass_other; [done |]. intros ->. apply Hnotin. left.
  - rewrite postsTo_app, IH.
    + rewrite app_nil_r. eapply postsTo_Pass_other; [done |].
      intros ->. apply Hnotin. left.
    + intros Hin. apply Hnotin. by right.
Qed.

Lemma Generation_posts_le_2 candidates lastError gen res model :
  Generation candidates lastError gen res → NoDup candidates →
  length (postsTo model gen) ≤ 2.
Proof.
  induction 1 as [| m later le seg img Hpass
                  | m rest le seg cause gen res Hpass Hgen IH];
    intros Hnodup.
  - simpl. lia.
  - destruct (decide (m = model)) as [->|Hne].
    + destruct (postsTo_Pass _ _ _ Hpass)
        as [(r & -> & _) | (r1 & r2 & -> & _)]; simpl; lia.
    + rewrite (postsTo_Pass_other _ _ _ _ Hpass Hne). simpl. lia.
  - apply NoDup_cons in Hnodup as [Hnotin Hnodup].
    rewrite postsTo_app, length_app.
    destruct (decide (m = model)) as [->|Hne].
    + rewrite (Generation_untouched _ _ _ _ _ Hgen Hnotin).
      destruct (postsTo_Pass _ _ _ Hpass)
        as [(r & -> & _) | (r1 & r2 & -> & _)]; simpl; lia.
    + rewrite (postsTo_Pass_other _ _ _ _ Hpass Hne).
      specialize (IH Hnodup). simpl. lia.
Qed.

(** [model] was sent a generation request and every answer was rejected. *)
Definition TriedAndFailed (gen : Trace) (model : string) : Prop :=
  postsTo model gen ≠ [] ∧ Forall Rejected (postsTo model gen).

Lemma Pass_Continue_failed model seg cause :
  Pass model seg (Continue cause) → TriedAndFailed seg model.
Proof.
  intros Hpass. unfold TriedAndFailed.
  destruct (postsTo_Pass _ _ _ Hpass)
    as [(r & -> & _ & Hrej) | (r1 & r2 & -> & Hload & Hrej)].
  - split; [done | by repeat constructor].
  - split; [done |]. repeat constructor; [by apply Loading_Rejected | done].
Qed.

Lemma Pass_last model seg step :
  Pass model seg step →
  ∃ res, (last seg = Some (POST model res)
          ∨ last seg = Some (RETRY model res))
         ∧ Decides res step.
Proof. intros Hpass. destruct Hpass; eauto. Qed.

Lemma Pass_nonempty model seg step : Pass model seg step → seg ≠ [].
Proof. by intros []. Qed.

(** A generation phase that runs out of candidates has tried every one of
    them in vain. *)
Lemma Generation_Err_all_failed candidates lastError gen msg :
  Generation candidates lastError gen (Err msg) → NoDup candidates →
  ∀ model, model ∈ candidates → TriedAndFailed gen model.
Proof.
  remember (Err msg) as res eqn:Hres.
  induction 1 as [| m later le seg img Hpass
                  | m rest le seg cause gen res Hpass Hgen IH];
    intros Hnodup model Hin.
  - by apply elem_of_nil in Hin.
  - done.
  - apply NoDup_cons in Hnodup as [Hnotin Hnodup].
    unfold TriedAndFailed. rewrite postsTo_app.
    apply elem_of_cons in Hin as [->|Hin].
    + rewrite (Generation_untouched _ _ _ _ _ Hgen Hnotin), app_nil_r.
      by eapply Pass_Continue_failed.
    + assert (m ≠ model) as Hne by (by intros ->).
      rewrite (postsTo_Pass_other _ _ _ _ Hpass Hne). simpl.
      by apply IH.
Qed.

(** A generation phase that returns an image stops at the first candidate
    with an accepted answer. *)
Lemma Generation_Ok_first candidates lastError gen imageBase64 :
  Generation candidates lastError gen (Ok imageBase64) → NoDup candidates →
  ∃ failed winner later res body,
    candidates = failed ++ winner :: later
    ∧ (last gen = Some (POST winner res)
       ∨ last gen = Some (RETRY winner res))
    ∧ Accepted res body
    ∧ imageBase64 = base64.EncodeToString body
    ∧ (∀ model, model ∈ failed → TriedAndFailed gen model)
    ∧ (∀ model, model ∈ later → postsTo model gen = []).
Proof.
  remember (Ok imageBase64) as res eqn:Hres.
  induction 1 as [| m later le seg img Hpass
                  | m rest le seg cause gen res Hpass Hgen IH];
    intros Hnodup.
  - done.
  - injection Hres as ->.
    apply NoDup_cons in Hnodup as [Hnotin Hnodup].
    destruct (Pass_last _ _ _ Hpass) as (res & Hlast & body & Hacc & ->).
    exists [], m, later, res, body. split_and!; try done.
    + intros model Hin. by apply elem_of_nil in Hin.
    + intros model Hin. eapply postsTo_Pass_other; [done |]. by intros ->.
  - apply NoDup_cons in Hnodup as [Hnotin Hnodup].
    destruct (IH Hres Hnodup)
      as (failed & winner & later & r & body & -> & Hlast & Hacc & Himg
          & Hfailed & Hlater).
    exists (m :: failed), winner, later, r, body. split_and!; try done.
    + destruct Hlast as [Hlast|Hlast]; [left | right];
        by rewrite last_app, Hlast.
    + intros model Hin. unfold TriedAndFailed. rewrite postsTo_app.
      apply elem_of_cons in Hin as [->|Hin].
      * rewrite (Generation_untouched _ _ _ _ _ Hgen Hnotin), app_nil_r.
        by eapply Pass_Continue_failed.
      * assert (m ≠ model) as Hne.
        { intros ->. apply Hnotin. apply elem_of_app. by left. }
        rewrite (postsTo_Pass_other _ _ _ _ Hpass Hne). simpl.
        by apply Hfailed.
    + intros model Hin. rewrite postsTo_app, (Hlater _ Hin), app_nil_r.
      eapply postsTo_Pass_other; [done |]. intros ->. apply Hnotin.
      apply elem_of_app. right. by right.
Qed.

Lemma Generation_head model rest lastError gen res :
  Generation (model :: rest) lastError gen res →
  ∃ first more, gen = POST model first :: more.
Proof.
  inversion 1 as [| ? ? ? seg ? Hpass | ? ? ? seg ? ? ? Hpass]; subst;
    destruct Hpass; simpl; eauto.
Qed.

(** *** The probe phase *)

(** The availability checks of [probed], answered by [results]. *)
Definition probeEvents (probed : list string)
    (results : list (result http.Response)) : Trace :=
  zip_with (λ model res, GET model res) probed results.

Lemma checkModelAvailability_spec model t :
  ∃ res, (checkModelAvailability world apiKey model t).2 = t ++ [GET model res]
         ∧ ((checkModelAvailability world apiKey model t).1 = true
            ↔ Ready res).
Proof.
  unfold checkModelAvailability, bind, clientDo, ret.
  exists (roundTrip world t 10 (probeRequest apiKey model)).
  destruct (roundTrip world t 10 _) as [resp|err]; simpl.
  - split; [done |]. rewrite Z.eqb_eq. split.
    + intros Hs. by exists resp.
    + by intros (resp' & [= <-] & Hs).
  - split; [done |]. split; [done | by intros (resp' & [=] & _)].
Qed.

Lemma findWorkingModel_spec candidates t :
  ∃ probed results,
    (findWorkingModel world apiKey candidates t).2
      = t ++ probeEvents probed results
    ∧ length results = length probed
    ∧ ((∃ before after earlier res,
          candidates
            = before ++ (findWorkingModel world apiKey candidates t).1 :: after
          ∧ probed = before ++ [(findWorkingModel world apiKey candidates t).1]
          ∧ results = earlier ++ [res]
          ∧ Forall (λ r, ¬ Ready r) earlier
          ∧ Ready res)
       ∨ ((findWorkingModel world apiKey candidates t).1 = ""
          ∧ probed = candidates
          ∧ Forall (λ r, ¬ Ready r) results)).
Proof.
  revert t. induction candidates as [|model rest IH]; intros t.
  - exists [], []. split_and!; [by rewrite app_nil_r | done |].
    right. by split_and!.
  - cbn [findWorkingModel]. unfold bind.
    destruct (checkModelAvailability_spec model t) as (res & Ht & Hready).
    destruct (checkModelAvailability world apiKey model t) as [ready t1].
    simpl in Ht, Hready. subst t1. destruct ready.
    + exists [model], [res]. split_and!; [done | done |].
      left. exists [], rest, [], res. split_and!; try done.
      by apply Hready.
    + assert (¬ Ready res) as Hnot by (intros ?%Hready; done).
      destruct (IH (t ++ [GET model res]))
        as (probed & results & Ht & Hlen
            & [(before & after & earlier & res' & Hc & -> & -> & Hall & Hr)
              | (Hwm & -> & Hall)]).
      * exists (model :: before
                ++ [(findWorkingModel world apiKey rest
                                      (t ++ [GET model res])).1]),
               (res :: earlier ++ [res']).
        split_and!; [by rewrite Ht, <- app_assoc | simpl; by rewrite Hlen |].
        left. exists (model :: before), after, (res :: earlier), res'.
        split_and!; try done; [by rewrite Hc at 1 | by constructor].
      * exists (model :: rest), (res :: results).
        split_and!; [by rewrite Ht, <- app_assoc | simpl; by rewrite Hlen |].
        right. split_and!; [done | done | by constructor].
Qed.

Lemma models_NoDup : NoDup models.
Proof. by apply (bool_decide_unpack _). Qed.

Lemma models_nonempty_names : "" ∉ models.
Proof. by apply (bool_decide_unpack _). Qed.

Lemma filter_others (before after : list string) model :
  NoDup (before ++ model :: after) →
  filter (λ other, other ≠ model) (before ++ model :: after)
  = before ++ after.
Proof.
  intros Hnodup.
  assert (∀ l : list string, model ∉ l →
            filter (λ other, other ≠ model) l = l) as Hkeep.
  { induction l as [|x l IH]; [done |]. intros Hnotin.
    apply not_elem_of_cons in Hnotin as [Hne Hnotin].
    rewrite filter_cons_True by done. by rewrite IH. }
  apply NoDup_app in Hnodup as (_ & Hdisj & [Hnotin _]%NoDup_cons).
  rewrite filter_app, filter_cons_False by (by intros ?).
  rewrite !Hkeep; [done | done |].
  intros Hin. apply (Hdisj _ Hin). left.
Qed.

(** The try-order: the preferred model first, the others in list order. *)
Lemma modelsToTry_order preferred before after :
  models = before ++ preferred :: after →
  modelsToTry preferred = preferred :: before ++ after
  ∧ NoDup (modelsToTry preferred).
Proof.
  intros Hmodels. unfold modelsToTry.
  pose proof models_NoDup as Hnodup. rewrite Hmodels in Hnodup |- *.
  rewrite filter_others by done. split; [done |].
  by rewrite (Permutation_middle before after preferred).
Qed.

Lemma preferredModel_spec t :
  ∃ preferred before after probed results,
    preferredModel world apiKey t = (preferred, t ++ probeEvents probed results)
    ∧ models = before ++ preferred :: after
    ∧ length results = length probed
    ∧ ((probed = before ++ [preferred]
        ∧ ∃ earlier res, results = earlier ++ [res]
                         ∧ Forall (λ r, ¬ Ready r) earlier
                         ∧ Ready res)
       ∨ (probed = models
          ∧ before = []
          ∧ Forall (λ r, ¬ Ready r) results)).
Proof.
  unfold preferredModel, bind.
  destruct (findWorkingModel_spec models t)
    as (probed & results & Ht & Hlen
        & [(before & after & earlier & res & Hc & -> & -> & Hall & Hr)
          | (Hwm & -> & Hall)]).
  - destruct (findWorkingModel world apiKey models t) as [wm t1].
    simpl in *. subst t1.
    assert (wm ≠ "") as Hne.
    { intros ->. apply models_nonempty_names. rewrite Hc.
      apply elem_of_app. right. left. }
    destruct (String.eqb_spec wm "") as [|_]; [done |].
    exists wm, before, after, (before ++ [wm]), (earlier ++ [res]).
    split_and!; try done. left. split; [done |]. by exists earlier, res.
  - destruct (findWorkingModel world apiKey models t) as [wm t1].
    simpl in *. subst t1 wm. simpl.
    exists (hd "" models), [], (tail models), models, results.
    split_and!; try done. right. by split_and!.
Qed.

Lemma generateImage_unfold t preferred t1 :
  preferredModel world apiKey t = (preferred, t1) →
  generateImage' t = tryModels' (modelsToTry preferred) None t1.
Proof. intros Hp. unfold generateImage, bind. by rewrite Hp. Qed.

(** C3.  The probe phase sends the availability GET to the models in list
    order and stops at the first answer with status 200; that model is the
    preferred one.  If no answer has status 200 every model was probed and
    the first model of the list is preferred.  The generation phase runs
    over the try-order, which is the preferred model followed by the other
    models in list order, and its first request goes to the preferred
    model. *)
Theorem probe_phase_try_order t :
  ∃ preferred before after probed results,
    models = before ++ preferred :: after
    ∧ preferredModel world apiKey t
      = (preferred, t ++ probeEvents probed results)
    ∧ length results = length probed
    ∧ ((probed = before ++ [preferred]
        ∧ ∃ earlier res, results = earlier ++ [res]
                         ∧ Forall (λ r, ¬ Ready r) earlier
                         ∧ Ready res)
       ∨ (probed = models
          ∧ Forall (λ r, ¬ Ready r) results
          ∧ head models = Some preferred))
    ∧ modelsToTry preferred = preferred :: before ++ after
    ∧ generateImage' t
      = tryModels' (modelsToTry preferred) None
                   (t ++ probeEvents probed results)
    ∧ ∃ first more,
        (generateImage' t).2
        = t ++ probeEvents probed results ++ POST preferred first :: more.
Proof.
  destruct (preferredModel_spec t)
    as (preferred & before & after & probed & results
        & Hpref & Hmodels & Hlen & Hcases).
  destruct (modelsToTry_order _ _ _ Hmodels) as [Horder _].
  exists preferred, before, after, probed, results.
  split_and!; try done.
  - destruct Hcases as [? | (-> & -> & Hall)]; [by left | right].
    split_and!; [done | done |]. by rewrite Hmodels at 1.
  - by apply generateImage_unfold.
  - rewrite (generateImage_unfold _ _ _ Hpref), Horder.
    destruct (tryModels_Generation (preferred :: before ++ after) None
                (t ++ probeEvents probed results)) as (gen & -> & Hgen).
    apply Generation_head in Hgen as (first & more & ->).
    exists first, more. by rewrite <- app_assoc.
Qed.

(** C1.  [generateImage] returns the base64 encoding of the body of the
    first model in try-order whose answer is accepted (status 200, a body
    of at least 100 bytes, no JSON object with an [error] field): every
    model before it in try-order was asked and had all its answers
    rejected, the accepted answer is the last event of the run (the answer
    to the winner's generation request, or to the second call made with it
    after a 503) and no model after it was sent a generation request.  If
    every model in try-order
    fails, it returns the error [all image generation models failed, last
    error: cause], where [cause] is what the pass of the last model in
    try-order recorded. *)
Theorem generateImage_first_accepted t :
  ∃ preferred probes gen,
    preferredModel world apiKey t = (preferred, t ++ probes)
    ∧ (generateImage' t).2 = t ++ probes ++ gen
    ∧ match (generateImage' t).1 with
      | Ok imageBase64 =>
          ∃ failed winner later res body,
            modelsToTry preferred = failed ++ winner :: later
            ∧ (last gen = Some (POST winner res)
               ∨ last gen = Some (RETRY winner res))
            ∧ Accepted res body
            ∧ imageBase64 = base64.EncodeToString body
            ∧ (∀ model, model ∈ failed → TriedAndFailed gen model)
            ∧ (∀ model, model ∈ later → postsTo model gen = [])
      | Err msg =>
          (∀ model, model ∈ modelsToTry preferred → TriedAndFailed gen model)
          ∧ ∃ earlier lastModel t0 cause,
              modelsToTry preferred = earlier ++ [lastModel]
              ∧ tryModel' lastModel t0
                = (Continue cause, (generateImage' t).2)
              ∧ msg = "all image generation models failed, last error: "
                      +:+ cause
      end.
Proof.
  destruct (preferredModel_spec t)
    as (preferred & before & after & probed & results
        & Hpref & Hmodels & _).
  destruct (modelsToTry_order _ _ _ Hmodels) as [Horder Hnodup].
  rewrite (generateImage_unfold _ _ _ Hpref).
  destruct (tryModels_Generation (modelsToTry preferred) None
              (t ++ probeEvents probed results)) as (gen & Ht & Hgen).
  exists preferred, (probeEvents probed results), gen.
  split_and!; [done | by rewrite Ht, <- app_assoc |].
  destruct (tryModels' (modelsToTry preferred) None
              (t ++ probeEvents probed results)).1
    as [imageBase64|msg] eqn:Hres.
  - by apply (Generation_Ok_first _ _ _ _ Hgen).
  - split; [by apply (Generation_Err_all_failed _ _ _ _ Hgen) |].
    destruct (tryModels_exhausted _ _ _ _ Hres)
      as [[Hnil _] | (earlier & lastModel & t0 & cause & ? & ? & ->)].
    + by rewrite Horder in Hnil.
    + by exists earlier, lastModel, t0, cause.
Qed.

Lemma Pass_retry_not_200 model res1 res2 step :
  Pass model [POST model res1; EvSleep 20; RETRY model res2] step →
  ¬ Status200 res2 → ∃ cause, step = Continue cause.
Proof.
  inversion 1 as [| ? ? ? _ Hdec]; subst. intros Hnot.
  destruct step as [cause|imageBase64]; [by exists cause |].
  destruct Hdec as (body & (resp & -> & Hs & _) & _).
  destruct Hnot. by exists resp.
Qed.

(** C2, as the code has it.  The generation phase is a sequence of passes,
    one per candidate in try-order.  A pass is a single POST whose answer
    is not a 503 with a readable body, or a POST answered 503 with a
    readable body, one sleep of 20 seconds and one second call of [Do] for
    that candidate.  The second call is handed the request object of the
    first, whose body the first call has read.  No candidate is sent more
    than two generation requests, and a second call whose answer does not
    have status 200 ends its pass with [Continue]: the loop moves on to
    the next candidate. *)
Theorem generateImage_retry_once t :
  ∃ preferred probes gen,
    preferredModel world apiKey t = (preferred, t ++ probes)
    ∧ (generateImage' t).2 = t ++ probes ++ gen
    ∧ Generation (modelsToTry preferred) None gen (generateImage' t).1
    ∧ (∀ model, length (postsTo model gen) ≤ 2)
    ∧ (∀ model res1 res2 step,
         Pass model [POST model res1; EvSleep 20; RETRY model res2] step →
         ¬ Status200 res2 → ∃ cause, step = Continue cause).
Proof.
  destruct (preferredModel_spec t)
    as (preferred & before & after & probed & results
        & Hpref & Hmodels & _).
  destruct (modelsToTry_order _ _ _ Hmodels) as [Horder Hnodup].
  rewrite (generateImage_unfold _ _ _ Hpref).
  destruct (tryModels_Generation (modelsToTry preferred) None
              (t ++ probeEvents probed results)) as (gen & Ht & Hgen).
  exists preferred, (probeEvents probed results), gen.
  split_and!; [done | by rewrite Ht, <- app_assoc | done | |].
  - intros model. by eapply Generation_posts_le_2.
  - apply Pass_retry_not_200.
Qed.
End OrchestratorFacts.

(** ** C5, C8, C10: the request dispatcher *)

(** The calls of the Gemini model recorded in a trace. *)
Definition geminiCalls (t : Trace) : list (Client * string * list genai.Part) :=
  omap (λ e, match e with
             | EvGenerateContent client model parts _ =>
                 Some (client, model, parts)
             | _ => None
             end) t.

(** Lower-casing is byte-wise on ASCII strings, so an extension written in
    any mix of upper and lower case is recognised. *)
Lemma lowerByte_ascii c :
  (strings.byteOf (strings.lowerByte c) <? 128)%N = true →
  (strings.byteOf c <? 128)%N = true.
Proof. by destruct c as [[] [] [] [] [] [] [] []]. Qed.

Lemma mapBytes_lower_ascii s :
  strings.isASCII (strings.mapBytes strings.lowerByte s) = true →
  strings.isASCII s = true.
Proof.
  induction s as [|c s IH]; [done |]. simpl.
  intros [Hc Hs]%andb_prop. by rewrite (lowerByte_ascii _ Hc), IH.
Qed.

Lemma ToLower_ascii_case unicodeToLower s lowered :
  strings.mapBytes strings.lowerByte s = lowered →
  strings.isASCII lowered = true →
  strings.ToLower unicodeToLower s = lowered.
Proof.
  intros <- Hascii. unfold strings.ToLower.
  by rewrite (mapBytes_lower_ascii _ Hascii).
Qed.

(** The extensions [handleChat] knows, with their MIME types. *)
Definition knownExtensions : list (string * string) :=
  [ (".jpg", "image/jpeg"); (".jpeg", "image/jpeg"); (".png", "image/png");
    (".gif", "image/gif"); (".webp", "image/webp") ].

Section DispatcherFacts.
Variable world : Upstream.
Variable unicodeToLower : string → string.
Variable JSONValue : Type.
Variable jsonUnmarshal : list byte → option (gmap string JSONValue).
Variable formatValue : JSONValue → string.
Variable unmarshalMessages : string → result (list Message).
Variable DetectContentType : list byte → string.

Abbreviation detectMimeType' :=
  (detectMimeType unicodeToLower DetectContentType).
Abbreviation handleChat' :=
  (handleChat world unicodeToLower JSONValue jsonUnmarshal formatValue
              unmarshalMessages DetectContentType).
Abbreviation dispatch' :=
  (dispatch world unicodeToLower JSONValue jsonUnmarshal formatValue).

Lemma detectMimeType_known filename imageData ext mimeType :
  (ext, mimeType) ∈ knownExtensions →
  strings.ToLower unicodeToLower (filepath.Ext filename) = ext →
  detectMimeType' filename imageData = mimeType.
Proof.
  intros Hin Hext. unfold detectMimeType. rewrite Hext.
  unfold knownExtensions in Hin.
  repeat (apply elem_of_cons in Hin as [[= -> ->] | Hin]; [done |]).
  by apply elem_of_nil in Hin.
Qed.

Lemma detectMimeType_unknown filename imageData :
  strings.ToLower unicodeToLower (filepath.Ext filename)
    ∉ knownExtensions.*1 →
  detectMimeType' filename imageData
  = if strings.HasPrefix (DetectContentType imageData) "image/"
    then DetectContentType imageData else "image/jpeg".
Proof.
  intros Hnotin. unfold detectMimeType.
  set (ext := strings.ToLower unicodeToLower (filepath.Ext filename)) in *.
  simpl in Hnotin.
  repeat (apply not_elem_of_cons in Hnotin as [Hne Hnotin];
          apply String.eqb_neq in Hne; rewrite Hne; clear Hne).
  simpl. by destruct (strings.HasPrefix _ "image/").
Qed.

Lemma detectMimeType_image filename imageData :
  strings.HasPrefix (detectMimeType' filename imageData) "image/" = true.
Proof.
  unfold detectMimeType.
  repeat (match goal with
          | |- context [if ?b then _ else _] => destruct b eqn:?
          end; try done).
  by apply negb_false_iff.
Qed.

(** Events of the Hugging Face side only. *)
Definition isHTTP (e : Event) : Prop :=
  match e with
  | EvDo _ _ _ | EvSleep _ => True
  | _ => False
  end.

Lemma probeEvents_isHTTP apiKey probed results :
  Forall isHTTP (probeEvents apiKey probed results).
Proof.
  revert results. induction probed as [|model probed IH];
    intros [|res results]; simpl; try constructor; [done | apply IH].
Qed.

Lemma Generation_isHTTP apiKey prompt candidates lastError gen res :
  Generation JSONValue jsonUnmarshal apiKey prompt candidates lastError gen
             res →
  Forall isHTTP gen.
Proof.
  induction 1 as [| m later le seg img Hpass
                  | m rest le seg cause gen res Hpass Hgen IH].
  - constructor.
  - destruct Hpass; by repeat constructor.
  - apply Forall_app. split; [| done]. destruct Hpass; by repeat constructor.
Qed.

Lemma generateImage_isHTTP apiKey prompt t :
  ∃ new,
    (generateImage world JSONValue jsonUnmarshal formatValue apiKey prompt t).2
      = t ++ new
    ∧ Forall isHTTP new.
Proof.
  destruct (preferredModel_spec world apiKey t)
    as (preferred & before & after & probed & results & Hpref & _).
  rewrite (generateImage_unfold _ _ _ _ _ _ _ _ _ Hpref).
  destruct (tryModels_Generation world JSONValue jsonUnmarshal formatValue
              apiKey prompt (modelsToTry preferred) None
              (t ++ probeEvents apiKey probed results)) as (gen & -> & Hgen).
  exists (probeEvents apiKey probed results ++ gen).
  split; [by rewrite app_assoc |].
  apply Forall_app. split; [apply probeEvents_isHTTP |].
  by eapply Generation_isHTTP.
Qed.

(** How the two outcomes of image generation are written to the client. *)
Definition imageEnvelope (r : result string) : Completion server.Written :=
  match r with
  | Ok imageBase64 =>
      Done (Some (200%Z, {| Response := acknowledgement;
                            ImageBase64 := imageBase64;
                            Error := "" |}))
  | Err err =>
      Done (sendErrorResponse ("Failed to generate image: " +:+ err) 500)
  end.

(** How the outcomes of a chat handler are written to the client. *)
Definition chatEnvelope (r : Completion (result string))
  : Completion server.Written :=
  match r with
  | Panic => Panic
  | Done (Ok response) =>
      Done (Some (200%Z, {| Response := response;
                            ImageBase64 := "";
                            Error := "" |}))
  | Done (Err err) =>
      Done (sendErrorResponse
              ("Failed to get response from Gemini: " +:+ err) 500)
  end.

(** The request parses to [messages], [prompt] and the optional uploaded
    file [image] (its name and bytes). *)
Definition Parsed (r : server.Request) (messages : list Message)
    (prompt : string) (image : option (string * list byte)) : Prop :=
  server.Method r = "POST"
  ∧ server.ParseMultipartForm r = None
  ∧ server.FormValue r "messages" ≠ ""
  ∧ unmarshalMessages (server.FormValue r "messages") = Ok messages
  ∧ server.FormValue r "prompt" = prompt
  ∧ match image with
    | Some (filename, imageData) =>
        ∃ file, server.FormFile r "image" = Ok file
                ∧ server.Filename file = filename
                ∧ server.Contents file = Ok imageData
    | None => ∃ err, server.FormFile r "image" = Err err
    end.

Lemma handleChat_parsed r geminiAPIKey huggingFaceAPIKey messages prompt image :
  Parsed r messages prompt image →
  handleChat' r geminiAPIKey huggingFaceAPIKey
  = dispatch' geminiAPIKey huggingFaceAPIKey messages prompt
      (match image with
       | Some (filename, imageData) =>
           Some (imageData, detectMimeType' filename imageData)
       | None => None
       end).
Proof.
  intros (Hmethod & Hparse & Hfield & Hmessages & Hprompt & Himage).
  unfold handleChat. rewrite Hmethod, Hparse, Hmessages, Hprompt. simpl.
  destruct (String.eqb_spec (server.FormValue r "messages") "") as [|_];
    [done |].
  destruct image as [[filename imageData]|].
  - destruct Himage as (file & -> & <- & ->). done.
  - destruct Himage as (err & ->). done.
Qed.

(** C5, as the code has it.  For a parsed request [handleChat] classifies
    the intent before it does anything to the outside world.  When the
    classifier answers [true] it runs [generateImage] and writes the fixed
    acknowledgement with the image, or the wrapped error.  When it answers
    [false] it first creates the Gemini client: if that fails the error is
    written and no handler runs; otherwise it runs [handleImageChat] when a
    file was uploaded and [handleTextChat] when none was, and writes the
    text or the wrapped error. *)
Theorem handleChat_routes
    r geminiAPIKey huggingFaceAPIKey messages prompt image t :
  Parsed r messages prompt image →
  (detectImageGenerationRequest unicodeToLower prompt messages = true →
   handleChat' r geminiAPIKey huggingFaceAPIKey t
   = let run := generateImage world JSONValue jsonUnmarshal formatValue
                              huggingFaceAPIKey prompt t in
     (imageEnvelope run.1, run.2))
  ∧ (detectImageGenerationRequest unicodeToLower prompt messages = false →
     dialGemini world t geminiAPIKey = None →
     handleChat' r geminiAPIKey huggingFaceAPIKey t
     = let t1 := t ++ [EvNewClient geminiAPIKey None] in
       let run :=
         match image with
         | Some (filename, imageData) =>
             handleImageChat world geminiAPIKey messages imageData
                             (detectMimeType' filename imageData) prompt t1
         | None => handleTextChat world geminiAPIKey messages prompt t1
         end in
       (chatEnvelope run.1, run.2))
  ∧ (detectImageGenerationRequest unicodeToLower prompt messages = false →
     ∀ err, dialGemini world t geminiAPIKey = Some err →
     handleChat' r geminiAPIKey huggingFaceAPIKey t
     = (Done (sendErrorResponse
                ("Failed to initialize Gemini client: " +:+ err) 500),
        t ++ [EvNewClient geminiAPIKey (Some err)])).
Proof.
  intros Hparsed. rewrite (handleChat_parsed _ _ _ _ _ _ Hparsed).
  unfold dispatch. split_and!.
  - intros ->. unfold bind.
    by destruct (generateImage _ _ _ _ _ _ t) as [[imageBase64|err] t'].
  - intros -> Hdial. unfold bind, NewClient. rewrite Hdial. simpl.
    destruct image as [[filename imageData]|].
    + by destruct (handleImageChat _ _ _ _ _ _ _) as [[[response|err]|] t'].
    + by destruct (handleTextChat _ _ _ _ _) as [[[response|err]|] t'].
  - intros -> err Hdial. unfold bind, NewClient. by rewrite Hdial.
Qed.

(** What a written response looks like: a success, with status 200 and no
    error, or an error, with an error status and nothing but the error. *)
Definition Envelope (status : Z) (cr : ChatResponse) : Prop :=
  (status = 200%Z ∧ Error cr = "")
  ∨ (status ∈ [400%Z; 405%Z; 500%Z]
     ∧ Response cr = "" ∧ ImageBase64 cr = "" ∧ Error cr ≠ "").

Ltac error_envelope :=
  unfold sendErrorResponse, StatusBadRequest, StatusMethodNotAllowed,
         StatusInternalServerError;
  intros [= <- <-]; right; split_and!; [set_solver | done ..].

Lemma dispatch_Envelope
    geminiAPIKey huggingFaceAPIKey messages prompt image t status cr :
  (dispatch' geminiAPIKey huggingFaceAPIKey messages prompt image t).1
    = Done (Some (status, cr)) →
  Envelope status cr.
Proof.
  unfold dispatch, bind, NewClient.
  destruct (detectImageGenerationRequest _ _ _).
  - destruct (generateImage _ _ _ _ _ _ t) as [[imageBase64|err] t']; simpl.
    + intros [= <- <-]. by left.
    + error_envelope.
  - destruct (dialGemini world t geminiAPIKey) as [err|]; simpl.
    + error_envelope.
    + destruct (match image with Some _ => _ | None => _ end)
        as [[[response|err]|] t']; simpl.
      * intros [= <- <-]. by left.
      * error_envelope.
      * done.
Qed.

(** C8.  Whatever [handleChat] writes is either a success, with status 200
    and an empty error field, or an error, with an error status, a
    non-empty error message, an empty response text and no image.  So no
    response has both the error and the response populated. *)
Theorem handleChat_envelope r geminiAPIKey huggingFaceAPIKey t status cr :
  (handleChat' r geminiAPIKey huggingFaceAPIKey t).1
    = Done (Some (status, cr)) →
  Envelope status cr ∧ (Error cr = "" ∨ Response cr = "").
Proof.
  intros Hwritten.
  assert (Envelope status cr) as Henv.
  { revert Hwritten. unfold handleChat, ret.
    repeat (match goal with
            | |- context [if ?b then _ else _] => destruct b
            | |- context [match ?x with _ => _ end] => destruct x
            end; simpl);
      try done; try error_envelope;
      apply dispatch_Envelope. }
  split; [done |].
  destruct Henv as [[_ ?] | (_ & ? & _)]; [by left | by right].
Qed.

Lemma handleImageChat_trace client messages imageData mimeType prompt t :
  ∃ text res,
    (handleImageChat world client messages imageData mimeType prompt t).2
    = t ++ [EvGenerateContent client "gemini-1.5-flash"
              [genai.Text text; genai.ImageData mimeType imageData] res].
Proof.
  unfold handleImageChat, bind, GenerateContent.
  exists (if negb (String.eqb prompt "") then prompt else defaultImagePrompt).
  destruct (negb (String.eqb prompt "")); simpl.
  - exists (geminiReply world t client "gemini-1.5-flash"
              [genai.Text prompt; genai.ImageData mimeType imageData]).
    by destruct (geminiReply world t client _ _).
  - exists (geminiReply world t client "gemini-1.5-flash"
              [genai.Text defaultImagePrompt;
               genai.ImageData mimeType imageData]).
    by destruct (geminiReply world t client _ _).
Qed.

Lemma handleTextChat_trace client messages prompt t :
  (handleTextChat world client messages prompt t).2 = t
  ∨ ∃ text res,
      (handleTextChat world client messages prompt t).2
      = t ++ [EvGenerateContent client "gemini-1.5-flash"
                [genai.Text text] res].
Proof.
  unfold handleTextChat, bind, GenerateContent.
  destruct (String.eqb _ ""); [by left | right].
  exists (promptTextOf messages prompt),
         (geminiReply world t client "gemini-1.5-flash"
                      [genai.Text (promptTextOf messages prompt)]).
  by destruct (geminiReply world t client _ _).
Qed.

Lemma dispatch_new_events
    geminiAPIKey huggingFaceAPIKey messages prompt image t :
  ∃ new,
    (dispatch' geminiAPIKey huggingFaceAPIKey messages prompt image t).2
      = t ++ new
    ∧ ∀ client model parts res format data,
        EvGenerateContent client model parts res ∈ new →
        genai.ImageData format data ∈ parts →
        image = Some (data, format).
Proof.
  unfold dispatch, bind, NewClient.
  destruct (detectImageGenerationRequest _ _ _).
  - destruct (generateImage_isHTTP huggingFaceAPIKey prompt t)
      as (new & Ht & Hhttp).
    exists new. split.
    + by destruct (generateImage _ _ _ _ _ _ t) as [[imageBase64|err] t'].
    + intros client model parts res format data Hin _.
      by apply (proj1 (Forall_forall _ _) Hhttp) in Hin.
  - destruct (dialGemini world t geminiAPIKey) as [err|]; simpl.
    + exists [EvNewClient geminiAPIKey (Some err)]. split; [done |].
      intros client model parts res format data Hin _.
      by apply list_elem_of_singleton in Hin.
    + set (t1 := t ++ [EvNewClient geminiAPIKey None]).
      destruct image as [[imageData mimeType]|].
      * destruct (handleImageChat_trace geminiAPIKey messages imageData
                    mimeType prompt t1) as (text & res0 & Ht).
        destruct (handleImageChat _ _ _ _ _ _ _) as [r t']. simpl in Ht.
        subst t' t1. eexists. split.
        -- destruct r as [[response|err]|]; simpl; by rewrite <- app_assoc.
        -- intros client model parts res format data Hin Hpart.
           apply elem_of_cons in Hin as [[=] | Hin].
           apply list_elem_of_singleton in Hin.
           injection Hin as -> -> -> ->.
           apply elem_of_cons in Hpart as [[=] | Hpart].
           apply list_elem_of_singleton in Hpart.
           by injection Hpart as -> ->.
      * destruct (handleTextChat_trace geminiAPIKey messages prompt t1)
          as [Ht | (text & res0 & Ht)];
          destruct (handleTextChat _ _ _ _ _) as [r t']; simpl in Ht;
          subst t' t1; eexists;
          (split; [destruct r as [[response|err]|]; simpl;
                   by rewrite <- ?app_assoc |]).
        -- intros client model parts res format data Hin _.
           by apply list_elem_of_singleton in Hin.
        -- intros client model parts res format data Hin Hpart.
           apply elem_of_cons in Hin as [[=] | Hin].
           apply list_elem_of_singleton in Hin.
           injection Hin as -> -> -> ->.
           by apply list_elem_of_singleton in Hpart.
Qed.

(** C10.  The MIME type [handleChat] computes for an uploaded file begins
    with [image/]: an extension that lower-cases to [.jpg], [.jpeg], [.png],
    [.gif] or [.webp] (in particular any upper/lower-case spelling of it)
    gives the fixed type of that extension; any other extension gives the
    sniffed content type if that begins with [image/] and [image/jpeg] if
    not.  Whenever [handleChat] calls the model with an image part, that
    part carries the bytes of the uploaded file and this MIME type. *)
Theorem handleChat_image_mime_type r geminiAPIKey huggingFaceAPIKey t :
  (∀ filename imageData,
     strings.HasPrefix (detectMimeType' filename imageData) "image/" = true
     ∧ (∀ ext mimeType,
          (ext, mimeType) ∈ knownExtensions →
          strings.ToLower unicodeToLower (filepath.Ext filename) = ext
          ∨ strings.mapBytes strings.lowerByte (filepath.Ext filename) = ext →
          detectMimeType' filename imageData = mimeType)
     ∧ (strings.ToLower unicodeToLower (filepath.Ext filename)
          ∉ knownExtensions.*1 →
        detectMimeType' filename imageData
        = if strings.HasPrefix (DetectContentType imageData) "image/"
          then DetectContentType imageData else "image/jpeg"))
  ∧ ∃ new,
      (handleChat' r geminiAPIKey huggingFaceAPIKey t).2 = t ++ new
      ∧ ∀ client model parts res format data,
          EvGenerateContent client model parts res ∈ new →
          genai.ImageData format data ∈ parts →
          strings.HasPrefix format "image/" = true
          ∧ ∃ file, server.FormFile r "image" = Ok file
                    ∧ server.Contents file = Ok data
                    ∧ format = detectMimeType' (server.Filename file) data.
Proof.
  split.
  - intros filename imageData. split_and!.
    + apply detectMimeType_image.
    + intros ext mimeType Hin [Hext | Hext].
      * by eapply detectMimeType_known.
      * eapply detectMimeType_known; [done |].
        apply ToLower_ascii_case; [done |].
        unfold knownExtensions in Hin.
        repeat (apply elem_of_cons in Hin as [[= -> ->] | Hin]; [done |]).
        by apply elem_of_nil in Hin.
    + apply detectMimeType_unknown.
  - assert (∀ out : Completion server.Written,
              ∃ new : Trace, (ret out t).2 = t ++ new
                ∧ ∀ client model parts res format data,
                    EvGenerateContent client model parts res ∈ new →
                    genai.ImageData format data ∈ parts →
                    strings.HasPrefix format "image/" = true
                    ∧ ∃ file, server.FormFile r "image" = Ok file
                              ∧ server.Contents file = Ok data
                              ∧ format
                                = detectMimeType' (server.Filename file) data)
      as Hret.
    { intros out. exists []. split; [by rewrite app_nil_r |].
      intros ? ? ? ? ? ? Hin. by apply elem_of_nil in Hin. }
    unfold handleChat.
    destruct (String.eqb _ "OPTIONS"); [apply Hret |].
    destruct (negb _); [apply Hret |].
    destruct (server.ParseMultipartForm r); [apply Hret |].
    destruct (String.eqb _ ""); [apply Hret |].
    destruct (unmarshalMessages _) as [messages|]; [| apply Hret].
    destruct (server.FormFile r "image") as [file|] eqn:Hfile.
    + destruct (server.Contents file) as [imageData|] eqn:Hdata;
        [| apply Hret].
      destruct (dispatch_new_events geminiAPIKey huggingFaceAPIKey messages
                  (server.FormValue r "prompt")
                  (Some (imageData,
                         detectMimeType' (server.Filename file) imageData)) t)
        as (new & Ht & Hnew).
      exists new. split; [done |].
      intros client model parts res format data Hin Hpart.
      specialize (Hnew _ _ _ _ _ _ Hin Hpart). injection Hnew as <- <-.
      split; [apply detectMimeType_image | by exists file].
    + destruct (dispatch_new_events geminiAPIKey huggingFaceAPIKey messages
                  (server.FormValue r "prompt") None t)
        as (new & Ht & Hnew).
      exists new. split; [done |].
      intros client model parts res format data Hin Hpart.
      by specialize (Hnew _ _ _ _ _ _ Hin Hpart).
Qed.
End DispatcherFacts.

(** * Concrete runs *)

(** ** Library functions on known inputs *)

Example base64_rfc4648 :
  base64.EncodeToString (list_byte_of_string "foobar") = "Zm9vYmFy"
  ∧ base64.EncodeToString (list_byte_of_string "fooba") = "Zm9vYmE="
  ∧ base64.EncodeToString (list_byte_of_string "foob") = "Zm9vYg=="
  ∧ base64.EncodeToString [] = "".
Proof. by vm_compute. Qed.

Example Ext_examples :
  filepath.Ext "holiday.photo.JPG" = ".JPG"
  ∧ filepath.Ext "archive.d/readme" = ""
  ∧ filepath.Ext ".profile" = ".profile".
Proof. by vm_compute. Qed.

Example format_status : fmt.d 503 = "503" ∧ fmt.d 0 = "0".
Proof. by vm_compute. Qed.

(** ** Worlds and requests *)

(** Stand-ins for the library functions that are parameters of the model. *)
Definition noUnicode : string → string := id.

(** A decoder that takes every body starting with an opening brace for an
    object with an [error] field, and rejects everything else. *)
Definition braceIsError (body : list byte) : option (gmap string string) :=
  match body with
  | x7b :: _ => Some {[ "error" := "Model is currently loading" ]}
  | _ => None
  end.

Definition parseEmptyHistory (messagesJSON : string) : result (list Message) :=
  if String.eqb messagesJSON "[]" then Ok []
  else Err "invalid character".

Definition sniffNothing (_ : list byte) : string := "application/octet-stream".

Definition pixels : list byte := replicate 120 x89.

Definition textReply (text : string) : genai.GenerateContentResponse :=
  {| genai.Candidates :=
       [ {| genai.Content := Some {| genai.Parts := [genai.Text text] |} |} ] |}.

(** Every probe is answered 200; a generation request is answered 503
    until the program has slept, and with an image afterwards.  A request
    whose body has already been read is not answered at all: the call
    fails. *)
Definition warmingWorld : Upstream :=
  {| roundTrip := λ t _ req,
       if String.eqb (http.Method req) "GET" then
         Ok {| http.StatusCode := 200; http.ReadAll := Ok [] |}
       else match http.Body req with
            | http.Drained _ => Err "request body already read"
            | _ =>
                if bool_decide (sleepsOf t = []) then
                  Ok {| http.StatusCode := 503;
                        http.ReadAll := Ok (list_byte_of_string "loading") |}
                else Ok {| http.StatusCode := 200; http.ReadAll := Ok pixels |}
            end;
     dialGemini := λ _ _, None;
     geminiReply := λ _ _ _ _, Ok (textReply "Halo!") |}.

(** Every round trip is answered 503 and the connection breaks while the
    body is read. *)
Definition cutWorld : Upstream :=
  {| roundTrip := λ _ _ _,
       Ok {| http.StatusCode := 503; http.ReadAll := Err "unexpected EOF" |};
     dialGemini := λ _ _, None;
     geminiReply := λ _ _ _ _, Ok (textReply "Halo!") |}.

(** The Gemini client cannot be created. *)
Definition downWorld : Upstream :=
  {| roundTrip := λ _ _ _, Err "connection refused";
     dialGemini := λ _ _, Some "dial failed";
     geminiReply := λ _ _ _ _, Ok (textReply "Halo!") |}.

(** Gemini answers without candidates. *)
Definition muteWorld : Upstream :=
  {| roundTrip := λ _ _ _, Err "connection refused";
     dialGemini := λ _ _, None;
     geminiReply := λ _ _ _ _, Ok {| genai.Candidates := [] |} |}.

(** A POST of an empty history with the prompt [prompt] and no file. *)
Definition textRequest (prompt : string) : server.Request :=
  {| server.Method := "POST";
     server.ParseMultipartForm := None;
     server.FormValue := λ key,
       if String.eqb key "messages" then "[]"
       else if String.eqb key "prompt" then prompt
       else "";
     server.FormFile := λ _, Err "http: no such file" |}.

(** The same with an uploaded file. *)
Definition uploadRequest (prompt filename : string) (contents : list byte)
  : server.Request :=
  {| server.Method := "POST";
     server.ParseMultipartForm := None;
     server.FormValue := server.FormValue (textRequest prompt);
     server.FormFile := λ key,
       if String.eqb key "image"
       then Ok {| server.Filename := filename; server.Contents := Ok contents |}
       else Err "http: no such file" |}.

Definition userTurn (text : string) : Message :=
  {| Role := "user";
     Parts := [ {| Text := text; MimeType := ""; Data := "" |} ] |}.

(** ** The classifier on examples *)

Example classifier_examples :
  detectImageGenerationRequest noUnicode "buatkan gambar kucing" [] = true
  ∧ detectImageGenerationRequest noUnicode "Please DRAW a cat" [] = true
  ∧ detectImageGenerationRequest noUnicode "halo"
      [userTurn "a Sketch, please"; userTurn "apa kabar"] = false
  ∧ detectImageGenerationRequest noUnicode "halo"
      [userTurn "apa kabar"; userTurn "a Sketch, please"] = true
  ∧ detectImageGenerationRequest noUnicode "What is in this picture?" [] = true.
Proof. by vm_compute. Qed.

(** ** The orchestrator on examples *)

(** A model that is still loading is called a second time after one
    sleep.  The second call is made with the request of the first, whose
    body has been read; here it fails, and the image comes from the next
    model of the try-order. *)
Example warming_run :
  let run := generateImage warmingWorld string braceIsError id
                           "hf_key" "a cat" [] in
  run.1 = Ok (base64.EncodeToString pixels)
  ∧ sleepsOf run.2 = [20%Z]
  ∧ postsTo "black-forest-labs/FLUX.1-dev" run.2
    = [ Ok {| http.StatusCode := 503;
              http.ReadAll := Ok (list_byte_of_string "loading") |};
        Err "request body already read" ]
  ∧ run.2 !! 3
    = Some (EvDo 60
              {| http.Method := "POST";
                 http.URL := modelURL "black-forest-labs/FLUX.1-dev";
                 http.Header := [("Authorization", "Bearer hf_key");
                                 ("Content-Type", "application/json");
                                 ("User-Agent", "GeminiChatApp/1.0")];
                 http.Body := http.Drained {| http.inputs := "a cat";
                                              http.parameters := None |} |}
              (Err "request body already read"))
  ∧ postsTo "black-forest-labs/FLUX.1-schnell" run.2
    = [ Ok {| http.StatusCode := 200; http.ReadAll := Ok pixels |} ]
  ∧ length run.2 = 5.
Proof. by vm_compute. Qed.

(** The witness of C2: in the warming world the preferred model is sent at
    most two generation requests. *)
Lemma generateImage_retry_once_witness :
  ∃ preferred probes gen,
    preferredModel warmingWorld "hf_key" [] = (preferred, [] ++ probes)
    ∧ length (postsTo preferred gen) ≤ 2.
Proof.
  destruct (generateImage_retry_once warmingWorld string braceIsError id
              "hf_key" "a cat" [])
    as (preferred & probes & gen & Hpref & _ & _ & Hposts & _).
  exists preferred, probes, gen. split; [exact Hpref | apply Hposts].
Defined.

(** The counterexample to C2 as stated: the first generation request to the
    first model is answered 503, the body cannot be read, and the program
    neither sleeps nor retries; it goes on to the next model. *)
Lemma unreadable_503_is_not_retried :
  let run := generateImage cutWorld string braceIsError id
                           "hf_key" "a cat" [] in
  postsTo "black-forest-labs/FLUX.1-dev" run.2
    = [ Ok {| http.StatusCode := 503;
              http.ReadAll := Err "unexpected EOF" |} ]
  ∧ sleepsOf run.2 = []
  ∧ run.1 = Err ("all image generation models failed, last error: "
                 +:+ "failed to read response body: unexpected EOF").
Proof. by vm_compute. Qed.

(** ** The gateway on examples *)

(** The witness of C7: without candidates both handlers return their
    fallback. *)
Lemma fallback_without_usable_candidate_witness :
  (handleTextChat muteWorld "gemini_key" [] "halo" []).1
    = Done (Ok textFallback)
  ∧ (handleImageChat muteWorld "gemini_key" [] pixels "image/png" "" []).1
    = Done (Ok imageFallback).
Proof.
  split.
  - apply (proj1 (fallback_without_usable_candidate muteWorld
                    "gemini_key" [] pixels "image/png" "halo" []
                    "gemini_key" "gemini-1.5-flash" [genai.Text "halo"]
                    {| genai.Candidates := [] |} (or_introl eq_refl))).
    reflexivity.
  - apply (proj2 (fallback_without_usable_candidate muteWorld
                    "gemini_key" [] pixels "image/png" "" []
                    "gemini_key" "gemini-1.5-flash"
                    [genai.Text defaultImagePrompt;
                     genai.ImageData "image/png" pixels]
                    {| genai.Candidates := [] |} (or_introl eq_refl))).
    reflexivity.
Defined.

(** The witness of C9: an earlier turn of the history changes nothing, and
    with a prompt no turn does. *)
Lemma handleTextChat_history_independence_witness :
  handleTextChat warmingWorld "gemini_key"
                 [userTurn "lukis kucing"; userTurn "apa kabar"] "" []
  = handleTextChat warmingWorld "gemini_key" [userTurn "apa kabar"] "" []
  ∧ handleTextChat warmingWorld "gemini_key" [userTurn "lukis kucing"] "halo" []
    = handleTextChat warmingWorld "gemini_key" [] "halo" [].
Proof.
  split.
  - apply (proj1 (handleTextChat_history_independence warmingWorld
                    "gemini_key"
                    [userTurn "lukis kucing"; userTurn "apa kabar"]
                    [userTurn "apa kabar"] "" [])).
    reflexivity.
  - apply (proj2 (handleTextChat_history_independence warmingWorld
                    "gemini_key" [userTurn "lukis kucing"] [] "halo" [])).
    discriminate.
Defined.

Example empty_request_has_no_content :
  handleTextChat warmingWorld "gemini_key" [] "" []
  = (Done (Err "no text content to send to Gemini"), []).
Proof. reflexivity. Qed.

(** ** The dispatcher on examples *)

Abbreviation handleChatIn world :=
  (handleChat world noUnicode string braceIsError id parseEmptyHistory
              sniffNothing).

Lemma textRequest_Parsed prompt :
  Parsed parseEmptyHistory (textRequest prompt) [] prompt None.
Proof. unfold Parsed. split_and!; try done. by eexists. Defined.

(** The witness of C5: a greeting is routed to [handleTextChat]. *)
Lemma handleChat_routes_witness :
  handleChatIn warmingWorld (textRequest "halo") "gemini_key" "hf_key" []
  = let run := handleTextChat warmingWorld "gemini_key" [] "halo"
                              [EvNewClient "gemini_key" None] in
    (chatEnvelope run.1, run.2).
Proof.
  apply (proj1 (proj2 (handleChat_routes warmingWorld noUnicode string
                         braceIsError id parseEmptyHistory sniffNothing
                         (textRequest "halo") "gemini_key" "hf_key"
                         [] "halo" None [] (textRequest_Parsed "halo"))));
    reflexivity.
Defined.

(** The counterexample to C5 as stated: the classifier answers [false] and
    no file was uploaded, yet [handleTextChat] does not run: the client
    could not be created, the model is never called, and the error of the
    client is what is written.  Had [handleTextChat] run it would have
    called the model. *)
Lemma client_failure_skips_the_handlers :
  let run := handleChatIn downWorld (textRequest "halo")
                          "gemini_key" "hf_key" [] in
  detectImageGenerationRequest noUnicode "halo" [] = false
  ∧ run = (Done (sendErrorResponse
                   "Failed to initialize Gemini client: dial failed" 500),
           [EvNewClient "gemini_key" (Some "dial failed")])
  ∧ geminiCalls run.2 = []
  ∧ ∀ t, geminiCalls (handleTextChat downWorld "gemini_key" [] "halo" t).2
         = geminiCalls t
           ++ [("gemini_key", "gemini-1.5-flash", [genai.Text "halo"])].
Proof.
  split_and!; [by vm_compute .. |].
  intros t. unfold handleTextChat, bind, GenerateContent, geminiCalls. simpl.
  by rewrite omap_app.
Qed.

(** The witness of C8: a successful chat writes the text and no error. *)
Lemma handleChat_envelope_witness :
  Envelope 200 {| Response := "Halo!"; ImageBase64 := ""; Error := "" |}
  ∧ (Error {| Response := "Halo!"; ImageBase64 := ""; Error := "" |} = ""
     ∨ Response {| Response := "Halo!"; ImageBase64 := ""; Error := "" |} = "").
Proof.
  apply (handleChat_envelope warmingWorld noUnicode string braceIsError id
           parseEmptyHistory sniffNothing (textRequest "halo")
           "gemini_key" "hf_key" []).
  reflexivity.
Defined.

(** The witness of C10: an upper-case extension is recognised, and an
    unknown one with unrecognised content falls back to JPEG. *)
Lemma handleChat_image_mime_type_witness :
  detectMimeType noUnicode sniffNothing "CAT.PNG" pixels = "image/png"
  ∧ detectMimeType noUnicode sniffNothing "cat.bin" pixels = "image/jpeg".
Proof.
  destruct (handleChat_image_mime_type warmingWorld noUnicode string
              braceIsError id parseEmptyHistory sniffNothing
              (textRequest "halo") "gemini_key" "hf_key" []) as [Hmime _].
  split.
  - destruct (Hmime "CAT.PNG" pixels) as (_ & Hknown & _).
    apply (Hknown ".png" "image/png").
    + unfold knownExtensions. by repeat constructor.
    + right. reflexivity.
  - destruct (Hmime "cat.bin" pixels) as (_ & _ & Hunknown).
    apply Hunknown. by apply (bool_decide_unpack _).
Defined.

(** An uploaded picture with a question about it is analysed, unless the
    question itself contains a keyword of the classifier. *)
Example upload_runs :
  (handleChatIn warmingWorld (uploadRequest "apa ini?" "CAT.PNG" pixels)
                "gemini_key" "hf_key" []).2
  = [ EvNewClient "gemini_key" None;
      EvGenerateContent "gemini_key" "gemini-1.5-flash"
        [genai.Text "apa ini?"; genai.ImageData "image/png" pixels]
        (Ok (textReply "Halo!")) ]
  ∧ geminiCalls
      (handleChatIn warmingWorld
         (uploadRequest "What is in this picture?" "CAT.PNG" pixels)
         "gemini_key" "hf_key" []).2 = [].
Proof. by vm_compute. Qed.

(** * Further properties of the relay *)

(** ** What a run of [generateImage] can cost *)

(** The requests of a trace that use [method], in order. *)
Definition requestsWith (method : string) (t : Trace) : list http.Request :=
  omap (λ e, match e with
             | EvDo _ req _ =>
                 if decide (http.Method req = method) then Some req else None
             | _ => None
             end) t.

(** The longest an event can keep the caller waiting, in seconds: the
    timeout of the client for a round trip, the duration of a sleep. *)
Definition secondsOf (e : Event) : Z :=
  match e with
  | EvDo timeoutSeconds _ _ => timeoutSeconds
  | EvSleep seconds => seconds
  | _ => 0%Z
  end.

Definition waitBudget (t : Trace) : Z :=
  foldr (λ e total, (secondsOf e + total)%Z) 0%Z t.

Lemma waitBudget_app (t1 t2 : Trace) :
  waitBudget (t1 ++ t2) = (waitBudget t1 + waitBudget t2)%Z.
Proof.
  induction t1 as [|e t1 IH]; [done |]. cbn [app waitBudget foldr].
  fold (waitBudget (t1 ++ t2)). fold (waitBudget t1). lia.
Qed.

Lemma requestsWith_app method (t1 t2 : Trace) :
  requestsWith method (t1 ++ t2)
  = requestsWith method t1 ++ requestsWith method t2.
Proof. apply omap_app. Qed.

Lemma sleepsOf_app (t1 t2 : Trace) :
  sleepsOf (t1 ++ t2) = sleepsOf t1 ++ sleepsOf t2.
Proof. apply omap_app. Qed.

(** What bounds a piece of trace: so many probes, generation requests and
    sleeps of 20 seconds, and so many seconds of waiting in all. *)
Record Within (gets posts sleeps : nat) (seconds : Z) (t : Trace) : Prop := {
  within_gets : length (requestsWith "GET" t) ≤ gets;
  within_posts : length (requestsWith "POST" t) ≤ posts;
  within_sleeps : length (sleepsOf t) ≤ sleeps;
  within_cooldown : Forall (λ s, s = 20%Z) (sleepsOf t);
  within_seconds : (waitBudget t ≤ seconds)%Z
}.

Lemma Within_app g1 p1 s1 z1 g2 p2 s2 z2 (t1 t2 : Trace) :
  Within g1 p1 s1 z1 t1 → Within g2 p2 s2 z2 t2 →
  Within (g1 + g2) (p1 + p2) (s1 + s2) (z1 + z2) (t1 ++ t2).
Proof.
  intros [] []. split.
  - rewrite requestsWith_app, length_app. lia.
  - rewrite requestsWith_app, length_app. lia.
  - rewrite sleepsOf_app, length_app. lia.
  - rewrite sleepsOf_app. by apply Forall_app.
  - rewrite waitBudget_app. lia.
Qed.

Lemma Within_weaken g p s z g' p' s' z' (t : Trace) :
  Within g p s z t → g ≤ g' → p ≤ p' → s ≤ s' → (z ≤ z')%Z →
  Within g' p' s' z' t.
Proof. intros [] ? ? ? ?. split; try done; lia. Qed.

(** The calls [generateImage] makes with the key [apiKey]: a sleep of 20
    seconds, or a call of [Do] with a request for the inference URL of a
    model of the list that bears the key in its [Authorization] header. *)
Definition HuggingFaceEvent (apiKey : string) (e : Event) : Prop :=
  e = EvSleep 20
  ∨ ∃ timeoutSeconds req res model,
      e = EvDo timeoutSeconds req res
      ∧ model ∈ models
      ∧ http.URL req = modelURL model
      ∧ ("Authorization", "Bearer " +:+ apiKey) ∈ http.Header req.

Section OrchestratorBudget.
Variable world : Upstream.
Variable JSONValue : Type.
Variable jsonUnmarshal : list byte → option (gmap string JSONValue).
Variable formatValue : JSONValue → string.
Variables apiKey prompt : string.

Abbreviation GET model res := (EvDo 10 (probeRequest apiKey model) res).
Abbreviation POST model res :=
  (EvDo 60 (generationRequest apiKey prompt model) res).
Abbreviation RETRY model res :=
  (EvDo 60 (http.sent (generationRequest apiKey prompt model)) res).
Abbreviation Pass' := (Pass JSONValue jsonUnmarshal apiKey prompt).
Abbreviation Generation' := (Generation JSONValue jsonUnmarshal apiKey prompt).
Abbreviation tryModel' :=
  (tryModel world JSONValue jsonUnmarshal formatValue apiKey prompt).
Abbreviation tryModels' :=
  (tryModels world JSONValue jsonUnmarshal formatValue apiKey prompt).
Abbreviation generateImage' :=
  (generateImage world JSONValue jsonUnmarshal formatValue apiKey prompt).

Lemma Pass_Within model seg step : Pass' model seg step → Within 0 2 1 140 seg.
Proof. intros []; split; cbn; repeat constructor; lia. Qed.

Lemma Generation_Within candidates lastError gen res :
  Generation' candidates lastError gen res →
  Within 0 (2 * length candidates) (length candidates)
         (140 * Z.of_nat (length candidates)) gen.
Proof.
  induction 1 as [| m later le seg img Hpass
                  | m rest le seg cause gen res Hpass Hgen IH].
  - split; cbn; try constructor; lia.
  - eapply Within_weaken; [by eapply Pass_Within | cbn [length]; lia ..].
  - eapply Within_weaken;
      [eapply Within_app; [by eapply Pass_Within | exact IH]
      | cbn [length]; lia ..].
Qed.

Lemma probeEvents_Within probed results :
  Within (length probed) 0 0 (10 * Z.of_nat (length probed))
         (probeEvents apiKey probed results).
Proof.
  revert results. induction probed as [|model probed IH];
    intros [|res results]; try (split; cbn; try constructor; lia).
  change (probeEvents apiKey (model :: probed) (res :: results))
    with ([GET model res] ++ probeEvents apiKey probed results).
  eapply Within_weaken.
  - eapply Within_app; [| apply IH].
    instantiate (1 := 10%Z). instantiate (1 := 0). instantiate (1 := 0).
    instantiate (1 := 1). split; cbn; repeat constructor; lia.
  - cbn [length]. lia.
  - lia.
  - lia.
  - cbn [length]. lia.
Qed.

Lemma models_length : length models = 10.
Proof. reflexivity. Qed.

Lemma probe_phase_lengths before preferred after :
  models = before ++ preferred :: after →
  length (before ++ [preferred]) ≤ 10
  ∧ length (preferred :: before ++ after) = 10.
Proof.
  intros Hmodels. pose proof models_length as Hlen.
  rewrite Hmodels in Hlen. rewrite length_app in Hlen |- *.
  cbn [length] in *. rewrite length_app. lia.
Qed.

(** X1.  A run of [generateImage] sends at most 10 availability checks and
    at most 20 generation requests, sleeps at most 10 times and only for 20
    seconds each, and so keeps its caller waiting for at most 1500 seconds
    of client timeouts and sleeps. *)
Theorem generateImage_budget t :
  ∃ new, (generateImage' t).2 = t ++ new ∧ Within 10 20 10 1500 new.
Proof.
  destruct (preferredModel_spec world apiKey t)
    as (preferred & before & after & probed & results
        & Hpref & Hmodels & Hlen & Hcases).
  destruct (modelsToTry_order _ _ _ Hmodels) as [Horder _].
  destruct (probe_phase_lengths _ _ _ Hmodels) as [Hprobed Htry].
  rewrite (generateImage_unfold _ _ _ _ _ _ _ _ _ Hpref).
  destruct (tryModels_Generation world JSONValue jsonUnmarshal formatValue
              apiKey prompt (modelsToTry preferred) None
              (t ++ probeEvents apiKey probed results)) as (gen & -> & Hgen).
  exists (probeEvents apiKey probed results ++ gen).
  split; [by rewrite app_assoc |].
  apply Generation_Within in Hgen. rewrite Horder, Htry in Hgen.
  assert (length probed ≤ 10) as Hp.
  { destruct Hcases as [[-> _] | (-> & _)]; [done |].
    by rewrite models_length. }
  eapply Within_weaken;
    [eapply Within_app; [apply probeEvents_Within | exact Hgen] | lia ..].
Qed.

Lemma Pass_sleep_inv model seg step (pre post : Trace) s :
  Pass' model seg step → seg = pre ++ EvSleep s :: post →
  s = 20%Z
  ∧ ∃ res1 res2, pre = [POST model res1] ∧ Loading res1
                 ∧ post = [RETRY model res2].
Proof.
  intros [res step' Hload Hdec | res1 res2 step' Hload Hdec] Heq.
  - destruct pre as [|? [|? ?]]; discriminate.
  - destruct pre as [|? [|? [|? [|? ?]]]]; try discriminate.
    injection Heq as <- <- <-. split; [done |]. by exists res1, res2.
Qed.

Lemma Generation_sleep_inv candidates lastError gen res (pre post : Trace) s :
  Generation' candidates lastError gen res →
  gen = pre ++ EvSleep s :: post →
  s = 20%Z
  ∧ ∃ before model res1 res2 after,
      pre = before ++ [POST model res1]
      ∧ Loading res1
      ∧ post = RETRY model res2 :: after.
Proof.
  intros Hgen. revert pre post.
  induction Hgen as [| m later le seg img Hpass
                     | m rest le seg cause gen res Hpass Hgen IH];
    intros pre post Heq.
  - by destruct pre.
  - destruct (Pass_sleep_inv _ _ _ _ _ _ Hpass Heq)
      as (-> & res1 & res2 & -> & Hload & ->).
    split; [done |]. by exists [], m, res1, res2, [].
  - apply app_eq_inv in Heq as [(k & Hseg & Hpost) | (k & -> & Hgen')].
    + destruct k as [|e k].
      * symmetry in Hpost. destruct (IH [] post Hpost)
          as (_ & before & ? & ? & ? & ? & Hnil & _).
        by destruct before.
      * injection Hpost as <- ->.
        destruct (Pass_sleep_inv _ _ _ _ _ _ Hpass Hseg)
          as (-> & res1 & res2 & -> & Hload & ->).
        split; [done |]. by exists [], m, res1, res2, gen.
    + destruct (IH _ _ Hgen')
        as (-> & before & model & res1 & res2 & after & -> & Hload & ->).
      split; [done |]. exists (seg ++ before), model, res1, res2, after.
      by rewrite app_assoc.
Qed.

Lemma probeEvents_sleep_free probed results (pre post : Trace) s :
  probeEvents apiKey probed results ≠ pre ++ EvSleep s :: post.
Proof.
  intros Heq.
  pose proof (probeEvents_isHTTP apiKey probed results) as Hhttp.
  assert (EvSleep s ∈ probeEvents apiKey probed results) as Hin.
  { rewrite Heq. apply elem_of_app. right. left. }
  revert Hin. clear Heq Hhttp. revert results.
  induction probed as [|model probed IH]; intros [|res results] Hin;
    try (by apply elem_of_nil in Hin).
  apply elem_of_cons in Hin as [[=] | Hin]. by eapply IH.
Qed.

(** X2.  [generateImage] sleeps only to retry: every sleep of a run lasts
    20 seconds, comes directly after a generation request that was answered
    503 with a readable body, and is directly followed by a second call of
    [Do] for the same model.  That call is handed the request object of the
    first: method, URL and headers are the same, but the body is the buffer
    the first call has read to its end, and the payload is not put back. *)
Theorem generateImage_sleeps_only_to_retry t :
  ∃ new,
    (generateImage' t).2 = t ++ new
    ∧ ∀ pre s post,
        new = pre ++ EvSleep s :: post →
        s = 20%Z
        ∧ ∃ before model res1 res2 after,
            pre = before ++ [POST model res1]
            ∧ Loading res1
            ∧ post = EvDo 60 (http.sent (generationRequest apiKey prompt model))
                          res2 :: after
            ∧ http.Body (http.sent (generationRequest apiKey prompt model))
              = http.Drained (payloadFor prompt model).
Proof.
  destruct (preferredModel_spec world apiKey t)
    as (preferred & before & after & probed & results & Hpref & _).
  rewrite (generateImage_unfold _ _ _ _ _ _ _ _ _ Hpref).
  destruct (tryModels_Generation world JSONValue jsonUnmarshal formatValue
              apiKey prompt (modelsToTry preferred) None
              (t ++ probeEvents apiKey probed results)) as (gen & -> & Hgen).
  exists (probeEvents apiKey probed results ++ gen).
  split; [by rewrite app_assoc |].
  intros pre s post Heq.
  apply app_eq_inv in Heq as [(k & Hprobes & Hpost) | (k & -> & Hgen')].
  - destruct k as [|e k].
    + symmetry in Hpost.
      destruct (Generation_sleep_inv _ _ _ _ [] _ _ Hgen Hpost)
        as (_ & before' & ? & ? & ? & ? & Hnil & _).
      by destruct before'.
    + injection Hpost as <- ->. by apply probeEvents_sleep_free in Hprobes.
  - destruct (Generation_sleep_inv _ _ _ _ _ _ _ Hgen Hgen')
      as (-> & before' & model & res1 & res2 & after' & -> & Hload & ->).
    split; [done |].
    exists (probeEvents apiKey probed results ++ before'), model, res1, res2,
           after'.
    by rewrite app_assoc.
Qed.

(** X3.  Whatever the probes answer, the try-order is a rearrangement of
    the model list: no model is dropped and none is tried twice. *)
Theorem try_order_is_a_permutation t :
  modelsToTry (preferredModel world apiKey t).1 ≡ₚ models
  ∧ NoDup (modelsToTry (preferredModel world apiKey t).1).
Proof.
  destruct (preferredModel_spec world apiKey t)
    as (preferred & before & after & probed & results & -> & Hmodels & _).
  destruct (modelsToTry_order _ _ _ Hmodels) as [Horder Hnodup].
  split; [| done]. cbn [fst]. rewrite Horder, Hmodels.
  apply Permutation_middle.
Qed.

(** *** Uniform upstream behaviour *)

(** Every generation request is answered with [status] and a readable
    body. *)
Definition AlwaysAnswers (status : Z) : Prop :=
  ∀ t timeoutSeconds req,
    http.Method req = "POST" →
    ∃ resp body, roundTrip world t timeoutSeconds req = Ok resp
                 ∧ http.StatusCode resp = status
                 ∧ http.ReadAll resp = Ok body.

Definition unauthorized : string := "unauthorized - invalid API key".

Lemma tryModel_unauthorized model t :
  AlwaysAnswers 401 →
  ∃ res, tryModel' model t = (Continue unauthorized, t ++ [POST model res]).
Proof.
  intros Hworld. unfold tryModel, bind, clientDo, ret.
  destruct (Hworld t 60%Z (generationRequest apiKey prompt model) eq_refl)
    as (resp & body & Hres & Hs & Hbody).
  exists (Ok resp). rewrite Hres. simpl. by rewrite Hbody, Hs.
Qed.

Lemma tryModels_unauthorized candidates lastError t :
  AlwaysAnswers 401 →
  ∃ answers,
    length answers = length candidates
    ∧ tryModels' candidates lastError t
      = (Err (exhausted (match candidates with
                         | [] => lastError
                         | _ => Some unauthorized
                         end)),
         t ++ zip_with (λ model res, POST model res) candidates answers).
Proof.
  intros Hworld. revert lastError t.
  induction candidates as [|model rest IH]; intros lastError t.
  - exists []. split; [done |]. cbn. by rewrite app_nil_r.
  - destruct (tryModel_unauthorized model t Hworld) as (res & Htry).
    destruct (IH (Some unauthorized) (t ++ [POST model res]))
      as (answers & Hlen & Hrest).
    exists (res :: answers). split; [cbn; by rewrite Hlen |].
    cbn [tryModels]. unfold bind. rewrite Htry, Hrest.
    rewrite <- app_assoc. by destruct rest.
Qed.

(** X4.  With a key the image service rejects (every generation request is
    answered 401), [generateImage] still asks every model of the try-order,
    exactly once each and without sleeping, and fails with the cause
    [unauthorized - invalid API key]. *)
Theorem invalid_key_exhausts_every_model t :
  AlwaysAnswers 401 →
  ∃ preferred probes answers,
    preferredModel world apiKey t = (preferred, t ++ probes)
    ∧ length answers = 10
    ∧ generateImage' t
      = (Err ("all image generation models failed, last error: "
              +:+ "unauthorized - invalid API key"),
         t ++ probes
           ++ zip_with (λ model res, POST model res)
                       (modelsToTry preferred) answers).
Proof.
  intros Hworld.
  destruct (preferredModel_spec world apiKey t)
    as (preferred & before & after & probed & results
        & Hpref & Hmodels & _).
  destruct (modelsToTry_order _ _ _ Hmodels) as [Horder _].
  destruct (probe_phase_lengths _ _ _ Hmodels) as [_ Htry].
  destruct (tryModels_unauthorized (modelsToTry preferred) None
              (t ++ probeEvents apiKey probed results) Hworld)
    as (answers & Hlen & Hrun).
  exists preferred, (probeEvents apiKey probed results), answers.
  split_and!; [done | by rewrite Hlen, Horder |].
  rewrite (generateImage_unfold _ _ _ _ _ _ _ _ _ Hpref), Hrun.
  rewrite <- app_assoc. by rewrite Horder at 1.
Qed.

Lemma tryModel_loading model t :
  AlwaysAnswers 503 →
  ∃ res1 res2 cause,
    tryModel' model t
    = (Continue cause, t ++ [POST model res1; EvSleep 20; RETRY model res2]).
Proof.
  intros Hworld. unfold tryModel, bind, clientDo, timeSleep, ret.
  set (req := generationRequest apiKey prompt model).
  destruct (Hworld t 60%Z req eq_refl) as (resp & body & Hres & Hs & Hbody).
  rewrite Hres. simpl. rewrite Hbody, Hs. simpl.
  destruct (Hworld ((t ++ [EvDo 60 req (Ok resp)]) ++ [EvSleep 20]) 60%Z
              (http.sent req) eq_refl)
    as (resp2 & body2 & Hres2 & Hs2 & Hbody2).
  rewrite Hres2. simpl. rewrite Hbody2, Hs2.
  exists (Ok resp), (Ok resp2). eexists.
  unfold acceptResponse. simpl. by rewrite <- !app_assoc.
Qed.

Lemma tryModels_loading candidates lastError t :
  AlwaysAnswers 503 →
  ∃ msg gen,
    tryModels' candidates lastError t = (Err msg, t ++ gen)
    ∧ sleepsOf gen = replicate (length candidates) 20%Z
    ∧ length (requestsWith "POST" gen) = 2 * length candidates
    ∧ waitBudget gen = (140 * Z.of_nat (length candidates))%Z.
Proof.
  intros Hworld. revert lastError t.
  induction candidates as [|model rest IH]; intros lastError t.
  - exists (exhausted lastError), []. cbn. by rewrite app_nil_r.
  - destruct (tryModel_loading model t Hworld)
      as (res1 & res2 & cause & Htry).
    destruct (IH (Some cause)
                 (t ++ [POST model res1; EvSleep 20; RETRY model res2]))
      as (msg & gen & Hrest & Hsleeps & Hposts & Hwait).
    exists msg, ([POST model res1; EvSleep 20; RETRY model res2] ++ gen).
    split_and!.
    + cbn [tryModels]. unfold bind. by rewrite Htry, Hrest, <- app_assoc.
    + rewrite sleepsOf_app, Hsleeps. done.
    + rewrite requestsWith_app, length_app, Hposts.
      assert (length (requestsWith "POST"
                [POST model res1; EvSleep 20; RETRY model res2]) = 2)
        as -> by done.
      cbn [length]. lia.
    + rewrite waitBudget_app, Hwait.
      assert (waitBudget [POST model res1; EvSleep 20; RETRY model res2]
              = 140%Z) as -> by done.
      cbn [length]. lia.
Qed.

(** X5.  When every model is still loading (every generation request is
    answered 503 with a readable body), [generateImage] gives each of the 10
    models one retry after one sleep: 20 generation requests, 10 sleeps of
    20 seconds, 1400 seconds of timeouts and sleeps after the probes, and
    an error at the end. *)
Theorem all_loading_costs_the_full_budget t :
  AlwaysAnswers 503 →
  ∃ preferred probes gen msg,
    preferredModel world apiKey t = (preferred, t ++ probes)
    ∧ generateImage' t = (Err msg, t ++ probes ++ gen)
    ∧ sleepsOf gen = replicate 10 20%Z
    ∧ length (requestsWith "POST" gen) = 20
    ∧ waitBudget gen = 1400%Z.
Proof.
  intros Hworld.
  destruct (preferredModel_spec world apiKey t)
    as (preferred & before & after & probed & results
        & Hpref & Hmodels & _).
  destruct (modelsToTry_order _ _ _ Hmodels) as [Horder _].
  destruct (probe_phase_lengths _ _ _ Hmodels) as [_ Htry].
  destruct (tryModels_loading (modelsToTry preferred) None
              (t ++ probeEvents apiKey probed results) Hworld)
    as (msg & gen & Hrun & Hsleeps & Hposts & Hwait).
  rewrite Horder, Htry in Hsleeps, Hposts, Hwait.
  exists preferred, (probeEvents apiKey probed results), gen, msg.
  split_and!; try done.
  rewrite (generateImage_unfold _ _ _ _ _ _ _ _ _ Hpref), Hrun.
  by rewrite <- app_assoc.
Qed.

Lemma Pass_footprint model seg step :
  Pass' model seg step → model ∈ models →
  Forall (HuggingFaceEvent apiKey) seg.
Proof.
  assert (∀ res, model ∈ models →
                 HuggingFaceEvent apiKey (POST model res)) as Hpost.
  { intros res Hm. right. eexists _, _, res, model.
    split_and!; [done | done | done | left]. }
  assert (∀ res, model ∈ models →
                 HuggingFaceEvent apiKey (RETRY model res)) as Hretry.
  { intros res Hm. right. eexists _, _, res, model.
    split_and!; [done | done | done | left]. }
  intros [res step' _ _ | res1 res2 step' _ _] Hm.
  - apply List.Forall_cons; [by apply Hpost | apply List.Forall_nil].
  - apply List.Forall_cons; [by apply Hpost |].
    apply List.Forall_cons; [by left |].
    apply List.Forall_cons; [by apply Hretry | apply List.Forall_nil].
Qed.

Lemma Generation_footprint candidates lastError gen res :
  Generation' candidates lastError gen res →
  (∀ model, model ∈ candidates → model ∈ models) →
  Forall (HuggingFaceEvent apiKey) gen.
Proof.
  induction 1 as [| m later le seg img Hpass
                  | m rest le seg cause gen res Hpass Hgen IH];
    intros Hsub.
  - constructor.
  - eapply Pass_footprint; [done |]. apply Hsub. left.
  - apply Forall_app. split.
    + eapply Pass_footprint; [done |]. apply Hsub. left.
    + apply IH. intros model Hin. apply Hsub. by right.
Qed.

Lemma probeEvents_footprint probed results :
  (∀ model, model ∈ probed → model ∈ models) →
  Forall (HuggingFaceEvent apiKey) (probeEvents apiKey probed results).
Proof.
  revert results. induction probed as [|model probed IH];
    intros [|res results] Hsub; try apply List.Forall_nil.
  apply List.Forall_cons.
  - right. eexists _, _, res, model.
    split_and!; [done | apply Hsub; left | done | left].
  - apply IH. intros m Hin. apply Hsub. by right.
Qed.

Lemma generateImage_footprint t :
  ∃ e new,
    (generateImage' t).2 = t ++ e :: new
    ∧ Forall (HuggingFaceEvent apiKey) (e :: new).
Proof.
  destruct (preferredModel_spec world apiKey t)
    as (preferred & before & after & probed & results
        & Hpref & Hmodels & _ & Hcases).
  destruct (modelsToTry_order _ _ _ Hmodels) as [Horder _].
  rewrite (generateImage_unfold _ _ _ _ _ _ _ _ _ Hpref).
  destruct (tryModels_Generation world JSONValue jsonUnmarshal formatValue
              apiKey prompt (modelsToTry preferred) None
              (t ++ probeEvents apiKey probed results)) as (gen & -> & Hgen).
  assert (Forall (HuggingFaceEvent apiKey)
                 (probeEvents apiKey probed results ++ gen)) as Hall.
  { apply Forall_app. split.
    - apply probeEvents_footprint. intros model Hin. rewrite Hmodels.
      destruct Hcases as [[-> _] | (-> & _)]; [| by rewrite <- Hmodels].
      apply elem_of_app in Hin as [Hin | Hin%list_elem_of_singleton].
      + apply elem_of_app. by left.
      + subst. apply elem_of_app. right. left.
    - eapply Generation_footprint; [done |]. intros model Hin.
      rewrite Horder in Hin. rewrite Hmodels.
      by rewrite (Permutation_middle before after preferred) in Hin. }
  rewrite Horder in Hgen.
  destruct (Generation_head _ _ _ _ _ _ _ _ _ Hgen) as (first & more & ->).
  destruct (probeEvents apiKey probed results) as [|e probes].
  - exists (POST preferred first), more. by rewrite app_nil_r.
  - exists e, (probes ++ POST preferred first :: more).
    split; [by rewrite <- app_assoc | done].
Qed.

Lemma generateImage_Ok_body t imageBase64 :
  (generateImage' t).1 = Ok imageBase64 →
  ∃ body, imageBase64 = base64.EncodeToString body ∧ 100 ≤ length body.
Proof.
  destruct (preferredModel_spec world apiKey t)
    as (preferred & before & after & probed & results
        & Hpref & Hmodels & _).
  destruct (modelsToTry_order _ _ _ Hmodels) as [_ Hnodup].
  rewrite (generateImage_unfold _ _ _ _ _ _ _ _ _ Hpref).
  destruct (tryModels_Generation world JSONValue jsonUnmarshal formatValue
              apiKey prompt (modelsToTry preferred) None
              (t ++ probeEvents apiKey probed results)) as (gen & _ & Hgen).
  intros Hres. rewrite Hres in Hgen.
  destruct (Generation_Ok_first _ _ _ _ _ _ _ _ Hgen Hnodup)
    as (_ & _ & _ & res & body & _ & _ & (resp & _ & _ & _ & Hlen & _)
        & -> & _).
  by exists body.
Qed.
End OrchestratorBudget.

(** ** The length of an image in base64 *)

Lemma EncodeToString_length_upto n (src : list byte) :
  length src < n →
  String.length (base64.EncodeToString src) = 4 * ((length src + 2) / 3).
Proof.
  revert src. induction n as [|n IH]; intros src Hlt; [lia |].
  destruct src as [|x [|y [|z rest]]]; try done.
  cbn [base64.EncodeToString base64.quad String.length length].
  rewrite IH by (cbn [length] in Hlt; lia).
  replace (S (S (S (length rest))) + 2) with (length rest + 2 + 1 * 3) by lia.
  rewrite Nat.div_add by done. lia.
Qed.

Lemma EncodeToString_length (src : list byte) :
  String.length (base64.EncodeToString src) = 4 * ((length src + 2) / 3).
Proof. apply (EncodeToString_length_upto (S (length src))). lia. Qed.

(** ** What the classifier looks at *)

Lemma append_cons x (a b : string) : String x a +:+ b = String x (a +:+ b).
Proof. reflexivity. Qed.

Lemma append_assoc (a b c : string) : (a +:+ b) +:+ c = a +:+ b +:+ c.
Proof.
  induction a as [|x a IH]; [done |]. by rewrite !append_cons, IH.
Qed.

Lemma IsSubstring_trans a b c :
  IsSubstring a b → IsSubstring b c → IsSubstring a c.
Proof.
  intros (u & v & ->) (x & y & ->).
  exists (x +:+ u), (v +:+ y). by rewrite !append_assoc.
Qed.

Lemma mapBytes_app f (a b : string) :
  strings.mapBytes f (a +:+ b)
  = strings.mapBytes f a +:+ strings.mapBytes f b.
Proof.
  induction a as [|x a IH]; [done |]. rewrite append_cons. cbn.
  by rewrite IH.
Qed.

Lemma isASCII_app (a b : string) :
  strings.isASCII (a +:+ b) = strings.isASCII a && strings.isASCII b.
Proof.
  induction a as [|x a IH]; [done |]. rewrite append_cons. cbn.
  rewrite IH. by rewrite andb_assoc.
Qed.

(** The keywords that decide: each of the other three configured keywords
    contains one of these. *)
Definition decidingKeywords : list string :=
  [ "generate image"; "create image"; "draw"; "gambar"; "lukis"; "ilustrasi";
    "sketch"; "photo"; "picture"; "image of"; "make an image" ].

(** The texts of the parts of the last message; none for an empty
    history. *)
Definition lastTexts (messages : list Message) : list string :=
  match last messages with
  | Some lastMessage => Text <$> Parts lastMessage
  | None => []
  end.

(** X6.  Three of the fourteen keywords never decide anything: on every
    text the keyword test gives the same answer without [buat gambar],
    [buatkan gambar] and [make a picture], because [gambar] and [picture]
    are keywords themselves. *)
Theorem redundant_keywords text :
  containsKeyword text imageKeywords = containsKeyword text decidingKeywords.
Proof.
  apply eq_true_iff_eq. rewrite !containsKeyword_spec. split.
  - intros (keyword & Hin & Hsub).
    assert (∃ core, core ∈ decidingKeywords ∧ IsSubstring core keyword)
      as (core & Hcore & Hinside).
    { unfold imageKeywords in Hin.
      repeat (apply elem_of_cons in Hin as [-> | Hin];
              [first [ exists "gambar"; split;
                         [by apply (bool_decide_unpack _)
                         | by apply Contains_spec]
                     | exists "picture"; split;
                         [by apply (bool_decide_unpack _)
                         | by apply Contains_spec]
                     | match goal with
                       | |- ∃ core, _ ∧ IsSubstring core ?k =>
                           exists k; split;
                           [by apply (bool_decide_unpack _)
                           | by exists "", "" ]
                       end ] |]).
      by apply elem_of_nil in Hin. }
    exists core. split; [done |]. by eapply IsSubstring_trans.
  - intros (keyword & Hin & Hsub). exists keyword. split; [| done].
    unfold decidingKeywords in Hin.
    repeat (apply elem_of_cons in Hin as [-> | Hin];
            [by apply (bool_decide_unpack _) |]).
    by apply elem_of_nil in Hin.
Qed.

Section ClassifierFrame.
Variable unicodeToLower : string → string.

Abbreviation detect := (detectImageGenerationRequest unicodeToLower).

Lemma partsMentionImage_texts parts1 parts2 :
  Text <$> parts1 = Text <$> parts2 →
  partsMentionImage unicodeToLower parts1
  = partsMentionImage unicodeToLower parts2.
Proof.
  revert parts2. induction parts1 as [|p1 parts1 IH];
    intros [|p2 parts2] Heq; try done.
  injection Heq as Htext Hrest. cbn [partsMentionImage].
  by rewrite Htext, (IH _ Hrest).
Qed.

(** X7.  The classifier reads the prompt and the texts of the parts of the
    last message, and nothing else: earlier messages, the role of the last
    message (user or model) and the MIME type and data of its parts do not
    change the answer. *)
Theorem classifier_reads_only_last_texts prompt messages1 messages2 :
  lastTexts messages1 = lastTexts messages2 →
  detect prompt messages1 = detect prompt messages2.
Proof.
  unfold detectImageGenerationRequest, lastTexts.
  destruct (containsKeyword _ imageKeywords); [done |].
  destruct (last messages1) as [m1|], (last messages2) as [m2|];
    intros Heq; try done.
  - by apply partsMentionImage_texts.
  - apply fmap_nil_inv in Heq. by rewrite Heq.
  - symmetry in Heq. apply fmap_nil_inv in Heq. by rewrite Heq.
Qed.

(** X8.  The classifier has no notion of negation or context: a request
    that triggers it on its own keeps triggering it when it is wrapped in
    more ASCII text, whatever the history. *)
Theorem classifier_is_monotone before request after messages :
  strings.isASCII (before +:+ request +:+ after) = true →
  detect request [] = true →
  detect (before +:+ request +:+ after) messages = true.
Proof.
  intros Hascii Hrequest.
  assert (strings.isASCII request = true) as Hreq.
  { rewrite !isASCII_app in Hascii.
    by apply andb_prop in Hascii as [_ [? _]%andb_prop]. }
  unfold detectImageGenerationRequest in *.
  assert (containsKeyword (strings.ToLower unicodeToLower request)
                          imageKeywords = true) as Hkw.
  { by destruct (containsKeyword _ imageKeywords). }
  clear Hrequest.
  assert (containsKeyword
            (strings.ToLower unicodeToLower (before +:+ request +:+ after))
            imageKeywords = true) as ->; [| done].
  apply containsKeyword_spec in Hkw as (keyword & Hin & Hsub).
  apply containsKeyword_spec. exists keyword. split; [done |].
  eapply IsSubstring_trans; [exact Hsub |].
  exists (strings.mapBytes strings.lowerByte before),
         (strings.mapBytes strings.lowerByte after).
  unfold strings.ToLower. rewrite Hreq, Hascii.
  by rewrite !mapBytes_app.
Qed.
End ClassifierFrame.

(** ** The calls a request can make *)

(** What the chat path may do with the key [apiKey]: create the client, or
    call the model [gemini-1.5-flash] through it. *)
Definition GeminiEvent (apiKey : string) (e : Event) : Prop :=
  (∃ err, e = EvNewClient apiKey err)
  ∨ ∃ parts res, e = EvGenerateContent apiKey "gemini-1.5-flash" parts res.

(** The handler turned the request away: it wrote nothing, or it wrote
    status 400 or 405. *)
Definition TurnedAway (out : Completion server.Written) : Prop :=
  out = Done None
  ∨ ∃ status cr, out = Done (Some (status, cr))
                 ∧ (status = 400%Z ∨ status = 405%Z).


Section DispatcherFootprint.
Variable world : Upstream.
Variable unicodeToLower : string → string.
Variable JSONValue : Type.
Variable jsonUnmarshal : list byte → option (gmap string JSONValue).
Variable formatValue : JSONValue → string.
Variable unmarshalMessages : string → result (list Message).
Variable DetectContentType : list byte → string.

Abbreviation detect := (detectImageGenerationRequest unicodeToLower).
Abbreviation detectMimeType' :=
  (detectMimeType unicodeToLower DetectContentType).
Abbreviation generateImage' :=
  (generateImage world JSONValue jsonUnmarshal formatValue).
Abbreviation handleChat' :=
  (handleChat world unicodeToLower JSONValue jsonUnmarshal formatValue
              unmarshalMessages DetectContentType).
Abbreviation dispatch' :=
  (dispatch world unicodeToLower JSONValue jsonUnmarshal formatValue).

(** Once the request is parsed the handler always makes a call, on one
    side only, and answers 200 or 500. *)
Lemma dispatch_footprint
    geminiAPIKey huggingFaceAPIKey messages prompt image t :
  ∃ e new,
    (dispatch' geminiAPIKey huggingFaceAPIKey messages prompt image t).2
      = t ++ e :: new
    ∧ (Forall (HuggingFaceEvent huggingFaceAPIKey) (e :: new)
       ∨ Forall (GeminiEvent geminiAPIKey) (e :: new))
    ∧ ¬ TurnedAway
          (dispatch' geminiAPIKey huggingFaceAPIKey messages prompt image t).1.
Proof.
  assert (∀ err, GeminiEvent geminiAPIKey (EvNewClient geminiAPIKey err))
    as Hnew by (intros err; left; by exists err).
  assert (∀ parts res,
            GeminiEvent geminiAPIKey
              (EvGenerateContent geminiAPIKey "gemini-1.5-flash" parts res))
    as Hcall by (intros parts res; right; by exists parts, res).
  unfold dispatch, bind, NewClient.
  destruct (detect prompt messages).
  - destruct (generateImage_footprint world JSONValue jsonUnmarshal
                formatValue huggingFaceAPIKey prompt t)
      as (e & new & Ht & Hall).
    exists e, new.
    destruct (generateImage' huggingFaceAPIKey prompt t)
      as [[imageBase64|err] t']; simpl in *; subst t';
      (split_and!; [done | by left |]);
      intros [[=] | (status & cr & [= <- _] & [[=] | [=]])].
  - destruct (dialGemini world t geminiAPIKey) as [err|]; simpl.
    + exists (EvNewClient geminiAPIKey (Some err)), [].
      split_and!;
        [done
        | right; apply List.Forall_cons; [apply Hnew | apply List.Forall_nil]
        |].
      intros [[=] | (status & cr & [= <- _] & [[=] | [=]])].
    + set (t1 := t ++ [EvNewClient geminiAPIKey None]).
      assert (∀ (run : Completion (result string) * Trace) new,
                run.2 = t1 ++ new →
                Forall (GeminiEvent geminiAPIKey) new →
                ∃ e new',
                  ((let '(a, t') := run in
                    match a with
                    | Done (Ok response) =>
                        ret (Done (Some (http.StatusOK,
                                         {| Response := response;
                                            ImageBase64 := "";
                                            Error := "" |})))
                    | Done (Err err) =>
                        ret (Done (sendErrorResponse
                                     ("Failed to get response from Gemini: "
                                      +:+ err)
                                     StatusInternalServerError))
                    | Panic => ret Panic
                    end t') : Completion server.Written * Trace).2
                  = t ++ e :: new'
                  ∧ (Forall (HuggingFaceEvent huggingFaceAPIKey)
                            (e :: new')
                     ∨ Forall (GeminiEvent geminiAPIKey) (e :: new'))
                  ∧ ¬ TurnedAway
                        ((let '(a, t') := run in
                          match a with
                          | Done (Ok response) =>
                              ret (Done (Some (http.StatusOK,
                                               {| Response := response;
                                                  ImageBase64 := "";
                                                  Error := "" |})))
                          | Done (Err err) =>
                              ret (Done (sendErrorResponse
                                           ("Failed to get response from Gemini: "
                                            +:+ err)
                                           StatusInternalServerError))
                          | Panic => ret Panic
                          end t') : Completion server.Written * Trace).1)
        as Hwrap.
      { intros [r t'] new Ht Hall. simpl in Ht. subst t' t1.
        exists (EvNewClient geminiAPIKey None), new.
        destruct r as [[response|err]|]; simpl;
          (split_and!; [by rewrite <- app_assoc
                       | right; by apply List.Forall_cons |]);
          intros [[=] | (status & cr & [=] & [? | ?])]; simplify_eq. }
      destruct image as [[imageData mimeType]|].
      * destruct (handleImageChat_trace world geminiAPIKey messages
                    imageData mimeType prompt t1) as (text & res & Ht).
        eapply Hwrap; [exact Ht |].
        apply List.Forall_cons; [apply Hcall | apply List.Forall_nil].
      * destruct (handleTextChat_trace world geminiAPIKey messages prompt t1)
          as [Ht | (text & res & Ht)].
        -- eapply (Hwrap _ []); [by rewrite app_nil_r | constructor].
        -- eapply Hwrap; [exact Ht |].
           apply List.Forall_cons; [apply Hcall | apply List.Forall_nil].
Qed.


(** X10.  One request works with one service.  The calls a request makes
    are either all on the Hugging Face side (sleeps of 20 seconds, and calls
    of [Do] with a request for the inference URL of a model of the list
    that bears the Hugging Face key in its [Authorization] header) or all
    on the Gemini side (the client created with the Gemini key, and calls
    of [gemini-1.5-flash] through it). *)
Theorem handleChat_footprint r geminiAPIKey huggingFaceAPIKey t :
  ∃ new,
    (handleChat' r geminiAPIKey huggingFaceAPIKey t).2 = t ++ new
    ∧ (Forall (HuggingFaceEvent huggingFaceAPIKey) new
       ∨ Forall (GeminiEvent geminiAPIKey) new).
Proof.
  assert (∀ out : Completion server.Written,
            ∃ new, (ret out t).2 = t ++ new
                   ∧ (Forall (HuggingFaceEvent huggingFaceAPIKey) new
                      ∨ Forall (GeminiEvent geminiAPIKey) new)) as Hret.
  { intros out. exists []. split; [by rewrite app_nil_r | left; constructor]. }
  assert (∀ messages image,
            ∃ new,
              (dispatch' geminiAPIKey huggingFaceAPIKey messages
                         (server.FormValue r "prompt") image t).2 = t ++ new
              ∧ (Forall (HuggingFaceEvent huggingFaceAPIKey) new
                 ∨ Forall (GeminiEvent geminiAPIKey) new)) as Hdispatch.
  { intros messages image.
    destruct (dispatch_footprint geminiAPIKey huggingFaceAPIKey messages
                (server.FormValue r "prompt") image t)
      as (e & new & Ht & Hside & _).
    by exists (e :: new). }
  unfold handleChat.
  destruct (String.eqb _ "OPTIONS"); [apply Hret |].
  destruct (negb _); [apply Hret |].
  destruct (server.ParseMultipartForm r); [apply Hret |].
  destruct (String.eqb _ ""); [apply Hret |].
  destruct (unmarshalMessages _) as [messages|]; [| apply Hret].
  destruct (server.FormFile r "image") as [file|]; [| apply Hdispatch].
  destruct (server.Contents file) as [imageData|]; [| apply Hret].
  apply Hdispatch.
Qed.
End DispatcherFootprint.

(** ** Requests end to end *)


Section EndToEnd.
Variable world : Upstream.
Variable unicodeToLower : string → string.
Variable JSONValue : Type.
Variable jsonUnmarshal : list byte → option (gmap string JSONValue).
Variable formatValue : JSONValue → string.
Variable unmarshalMessages : string → result (list Message).
Variable DetectContentType : list byte → string.

Abbreviation detect := (detectImageGenerationRequest unicodeToLower).
Abbreviation detectMimeType' :=
  (detectMimeType unicodeToLower DetectContentType).
Abbreviation generateImage' :=
  (generateImage world JSONValue jsonUnmarshal formatValue).
Abbreviation handleChat' :=
  (handleChat world unicodeToLower JSONValue jsonUnmarshal formatValue
              unmarshalMessages DetectContentType).
Abbreviation dispatch' :=
  (dispatch world unicodeToLower JSONValue jsonUnmarshal formatValue).

(** X11.  When the classifier fires, an uploaded file is discarded: the
    request does exactly what the same request without the file does, and
    the picture is never analysed. *)
Theorem upload_is_discarded_when_classifier_fires
    r withoutFile messages prompt filename imageData
    geminiAPIKey huggingFaceAPIKey t :
  Parsed unmarshalMessages r messages prompt (Some (filename, imageData)) →
  Parsed unmarshalMessages withoutFile messages prompt None →
  detect prompt messages = true →
  handleChat' r geminiAPIKey huggingFaceAPIKey t
  = handleChat' withoutFile geminiAPIKey huggingFaceAPIKey t.
Proof.
  intros Hr Hwithout Hfires.
  rewrite (handleChat_parsed _ _ _ _ _ _ _ _ _ _ _ _ _ Hr).
  rewrite (handleChat_parsed _ _ _ _ _ _ _ _ _ _ _ _ _ Hwithout).
  unfold dispatch. by rewrite Hfires.
Qed.


(** X13.  A response that carries an image is a success of the generation
    path: status 200, the fixed acknowledgement as text, no error, and an
    image of at least 136 base64 characters (the encoding of at least 100
    bytes). *)
Theorem image_in_response_means_generated
    r geminiAPIKey huggingFaceAPIKey t status cr :
  (handleChat' r geminiAPIKey huggingFaceAPIKey t).1
    = Done (Some (status, cr)) →
  ImageBase64 cr ≠ "" →
  status = 200%Z
  ∧ Response cr = acknowledgement
  ∧ Error cr = ""
  ∧ 136 ≤ String.length (ImageBase64 cr).
Proof.
  assert (∀ messages prompt image,
            (dispatch' geminiAPIKey huggingFaceAPIKey messages prompt image t).1
              = Done (Some (status, cr)) →
            ImageBase64 cr ≠ "" →
            status = 200%Z ∧ Response cr = acknowledgement ∧ Error cr = ""
            ∧ 136 ≤ String.length (ImageBase64 cr)) as Hdispatch.
  { intros messages prompt image. unfold dispatch, bind, NewClient.
    destruct (detect prompt messages).
    - pose proof (generateImage_Ok_body world JSONValue jsonUnmarshal
                    formatValue huggingFaceAPIKey prompt t) as Hbody.
      destruct (generateImage' huggingFaceAPIKey prompt t)
        as [[imageBase64|err] t']; simpl in *.
      + intros [= <- <-] _.
        destruct (Hbody imageBase64 eq_refl) as (body & -> & Hlen).
        split_and!; try done. simpl. rewrite EncodeToString_length.
        pose proof (Nat.Div0.div_le_mono 102 (length body + 2) 3) as Hdiv.
        change (102 / 3) with 34 in Hdiv. lia.
      + by intros [= <- <-].
    - destruct (dialGemini world t geminiAPIKey) as [err|]; simpl.
      + by intros [= <- <-].
      + destruct image as [[imageData mimeType]|].
        * destruct (handleImageChat _ _ _ _ _ _ _) as [[[response|err]|] t'];
            simpl; try done; by intros [= <- <-].
        * destruct (handleTextChat _ _ _ _ _) as [[[response|err]|] t'];
            simpl; try done; by intros [= <- <-]. }
  unfold handleChat, ret.
  repeat (match goal with
          | |- context [if ?b then _ else _] => destruct b
          | |- context [match ?x with _ => _ end] => destruct x
          end; simpl);
    try done; try (by intros [= <- <-]); apply Hdispatch.
Qed.

(** The MIME type of the blob a part carries: [genai.ImageData(format,
    data)] is [Blob{MIMEType: "image/" + format, Data: data}] in the client
    library. *)
Definition blobMIMEType (part : genai.Part) : option string :=
  match part with
  | genai.ImageData format _ => Some ("image/" +:+ format)
  | _ => None
  end.

(** X14.  A text chat end to end (no file, classifier silent, client
    created): the effective prompt is sent as the only part of one call of
    the model.  The text of the first part of the first candidate is
    written back unchanged with status 200; the fallback is written with
    status 200 when the reply has no candidate, or its first candidate has
    no first part or one that is not a text; when the [Content] of the
    first candidate is [nil] the handler panics and writes nothing; an
    error of the call is written with status 500 behind the two prefixes of
    the handlers. *)
Theorem text_chat_end_to_end
    r messages prompt text geminiAPIKey huggingFaceAPIKey t :
  Parsed unmarshalMessages r messages prompt None →
  detect prompt messages = false →
  dialGemini world t geminiAPIKey = None →
  effectivePrompt messages prompt = Some text →
  let t1 := t ++ [EvNewClient geminiAPIKey None] in
  let reply := geminiReply world t1 geminiAPIKey "gemini-1.5-flash"
                           [genai.Text text] in
  handleChat' r geminiAPIKey huggingFaceAPIKey t
  = (match reply with
     | Err err =>
         Done (Some (500%Z,
                     {| Response := "";
                        ImageBase64 := "";
                        Error := "Failed to get response from Gemini: "
                                 +:+ "failed to generate content: "
                                 +:+ err |}))
     | Ok resp =>
         match genai.Candidates resp with
         | [] =>
             Done (Some (200%Z, {| Response := textFallback;
                                   ImageBase64 := "";
                                   Error := "" |}))
         | candidate :: _ =>
             match genai.Content candidate with
             | None => Panic
             | Some content =>
                 Done (Some (200%Z,
                             {| Response := match genai.Parts content with
                                            | genai.Text first :: _ => first
                                            | _ => textFallback
                                            end;
                                ImageBase64 := "";
                                Error := "" |}))
             end
         end
     end,
     t1 ++ [EvGenerateContent geminiAPIKey "gemini-1.5-flash"
              [genai.Text text] reply]).
Proof.
  intros Hr Hsilent Hdial Htext. cbn zeta.
  rewrite (handleChat_parsed _ _ _ _ _ _ _ _ _ _ _ _ _ Hr).
  unfold dispatch. rewrite Hsilent. unfold bind, NewClient. rewrite Hdial.
  simpl. unfold handleTextChat. rewrite promptTextOf_effective, Htext. simpl.
  apply effectivePrompt_nonempty in Htext.
  destruct (String.eqb_spec text "") as [|_]; [done |].
  unfold bind, GenerateContent.
  destruct (geminiReply world _ geminiAPIKey _ _) as [resp|err]; simpl.
  - unfold extractText.
    destruct (genai.Candidates resp) as [|[[[parts]|]] ?]; simpl; [done | | done].
    by destruct parts as [|[] ?].
  - done.
Qed.

(** X15.  An image analysis end to end (file uploaded, classifier silent,
    client created): the model is called once with two parts, the prompt
    (or the default instruction when the prompt is empty) and the value of
    [genai.ImageData] called with the detected MIME type as its format and
    the uploaded bytes; the history is not sent.  The detected type starts
    with [image/] already whenever the extension is a known one, and the
    library puts [image/] in front of the format once more, so the blob
    the model is given bears [image/] twice.  The outcome is written as
    for a text chat, panic included, with the prefix and the fallback of
    the image handler. *)
Theorem image_chat_end_to_end
    r messages prompt filename imageData geminiAPIKey huggingFaceAPIKey t :
  Parsed unmarshalMessages r messages prompt (Some (filename, imageData)) →
  detect prompt messages = false →
  dialGemini world t geminiAPIKey = None →
  let t1 := t ++ [EvNewClient geminiAPIKey None] in
  let parts := [ genai.Text (if decide (prompt = "")
                             then defaultImagePrompt else prompt);
                 genai.ImageData (detectMimeType' filename imageData)
                                 imageData ] in
  let reply := geminiReply world t1 geminiAPIKey "gemini-1.5-flash" parts in
  handleChat' r geminiAPIKey huggingFaceAPIKey t
  = (match reply with
     | Err err =>
         Done (Some (500%Z,
                     {| Response := "";
                        ImageBase64 := "";
                        Error := "Failed to get response from Gemini: "
                                 +:+ "failed to generate content with image: "
                                 +:+ err |}))
     | Ok resp =>
         match genai.Candidates resp with
         | [] =>
             Done (Some (200%Z, {| Response := imageFallback;
                                   ImageBase64 := "";
                                   Error := "" |}))
         | candidate :: _ =>
             match genai.Content candidate with
             | None => Panic
             | Some content =>
                 Done (Some (200%Z,
                             {| Response := match genai.Parts content with
                                            | genai.Text first :: _ => first
                                            | _ => imageFallback
                                            end;
                                ImageBase64 := "";
                                Error := "" |}))
             end
         end
     end,
     t1 ++ [EvGenerateContent geminiAPIKey "gemini-1.5-flash" parts reply])
  ∧ map blobMIMEType parts
    = [None; Some ("image/" +:+ detectMimeType' filename imageData)]
  ∧ ∀ ext mimeType,
      (ext, mimeType) ∈ knownExtensions →
      strings.ToLower unicodeToLower (filepath.Ext filename) = ext →
      ∃ subtype, map blobMIMEType parts
                 = [None; Some ("image/" +:+ "image/" +:+ subtype)].
Proof.
  intros Hr Hsilent Hdial. cbn zeta. split_and!; [| done |].
  2: { intros ext mimeType Hin Hext. cbn [map blobMIMEType].
       rewrite (detectMimeType_known _ _ _ _ _ _ Hin Hext).
       unfold knownExtensions in Hin.
       repeat (apply elem_of_cons in Hin as [[= -> ->] | Hin];
               [eexists; reflexivity |]).
       by apply elem_of_nil in Hin. }
  rewrite (handleChat_parsed _ _ _ _ _ _ _ _ _ _ _ _ _ Hr).
  unfold dispatch. rewrite Hsilent. unfold bind, NewClient. rewrite Hdial.
  simpl. unfold handleImageChat, bind, GenerateContent.
  rewrite eqb_empty_decide.
  case_bool_decide as Hp; case_decide; try done; simpl;
    (destruct (geminiReply world _ geminiAPIKey _ _) as [resp|err]; simpl;
     [| done]);
    unfold extractText;
    (destruct (genai.Candidates resp) as [|[[[parts]|]] ?]; simpl;
     [done | | done]);
    by destruct parts as [|[] ?].
Qed.
End EndToEnd.

(** ** More concrete runs *)

(** The image service rejects the key: every round trip is answered 401. *)
Definition lockedWorld : Upstream :=
  {| roundTrip := λ _ _ _,
       Ok {| http.StatusCode := 401;
             http.ReadAll := Ok (list_byte_of_string "Unauthorized") |};
     dialGemini := λ _ _, None;
     geminiReply := λ _ _ _ _, Ok (textReply "Halo!") |}.

(** Every model is loading: every round trip is answered 503. *)
Definition coldWorld : Upstream :=
  {| roundTrip := λ _ _ _,
       Ok {| http.StatusCode := 503;
             http.ReadAll := Ok (list_byte_of_string "loading") |};
     dialGemini := λ _ _, None;
     geminiReply := λ _ _ _ _, Ok (textReply "Halo!") |}.

Lemma lockedWorld_unauthorized : AlwaysAnswers lockedWorld 401.
Proof. intros t timeoutSeconds req _. by eexists _, _. Defined.

Lemma coldWorld_loading : AlwaysAnswers coldWorld 503.
Proof. intros t timeoutSeconds req _. by eexists _, _. Defined.

Lemma uploadRequest_Parsed prompt filename contents :
  Parsed parseEmptyHistory (uploadRequest prompt filename contents)
         [] prompt (Some (filename, contents)).
Proof. unfold Parsed. split_and!; try done. by eexists. Defined.

Definition modelTurn (text : string) : Message :=
  {| Role := "model";
     Parts := [ {| Text := text; MimeType := "text/plain"; Data := "" |} ] |}.

Lemma invalid_key_exhausts_every_model_witness :
  (generateImage lockedWorld string braceIsError id "bad_key" "a cat" []).1
  = Err ("all image generation models failed, last error: "
         +:+ "unauthorized - invalid API key").
Proof.
  destruct (invalid_key_exhausts_every_model lockedWorld string braceIsError
              id "bad_key" "a cat" [] lockedWorld_unauthorized)
    as (preferred & probes & answers & _ & _ & Hrun).
  by rewrite Hrun.
Defined.

Lemma all_loading_costs_the_full_budget_witness :
  ∃ gen, sleepsOf gen = replicate 10 20%Z ∧ waitBudget gen = 1400%Z.
Proof.
  destruct (all_loading_costs_the_full_budget coldWorld string braceIsError
              id "hf_key" "a cat" [] coldWorld_loading)
    as (preferred & probes & gen & msg & _ & _ & Hsleeps & _ & Hwait).
  by exists gen.
Defined.

(** In the cold world no probe is ready either, so the whole budget of X1
    is spent: 1500 seconds. *)
Example cold_run_spends_everything :
  waitBudget (generateImage coldWorld string braceIsError id
                            "hf_key" "a cat" []).2 = 1500%Z.
Proof. by vm_compute. Qed.

Lemma classifier_reads_only_last_texts_witness :
  detectImageGenerationRequest noUnicode "halo"
    [userTurn "apa kabar"; modelTurn "ini gambar kucing"]
  = detectImageGenerationRequest noUnicode "halo"
      [userTurn "ini gambar kucing"].
Proof.
  apply (classifier_reads_only_last_texts noUnicode "halo"
           [userTurn "apa kabar"; modelTurn "ini gambar kucing"]
           [userTurn "ini gambar kucing"]).
  reflexivity.
Defined.

Lemma classifier_is_monotone_witness :
  detectImageGenerationRequest noUnicode
    ("please do not " +:+ "draw" +:+ " anything") [] = true.
Proof.
  apply (classifier_is_monotone noUnicode "please do not " "draw"
           " anything" []); reflexivity.
Defined.

Lemma upload_is_discarded_when_classifier_fires_witness :
  handleChatIn warmingWorld
    (uploadRequest "What is in this picture?" "CAT.PNG" pixels)
    "gemini_key" "hf_key" []
  = handleChatIn warmingWorld (textRequest "What is in this picture?")
                 "gemini_key" "hf_key" [].
Proof.
  apply (upload_is_discarded_when_classifier_fires warmingWorld noUnicode
           string braceIsError id parseEmptyHistory sniffNothing
           (uploadRequest "What is in this picture?" "CAT.PNG" pixels)
           (textRequest "What is in this picture?")
           [] "What is in this picture?" "CAT.PNG" pixels
           "gemini_key" "hf_key" []
           (uploadRequest_Parsed _ _ _) (textRequest_Parsed _)).
  reflexivity.
Defined.


Lemma image_in_response_means_generated_witness :
  let cr := {| Response := acknowledgement;
               ImageBase64 := base64.EncodeToString pixels;
               Error := "" |} in
  (handleChatIn warmingWorld (textRequest "buatkan gambar kucing")
                "gemini_key" "hf_key" []).1 = Done (Some (200%Z, cr))
  ∧ 136 ≤ String.length (ImageBase64 cr).
Proof.
  cbn zeta.
  assert ((handleChatIn warmingWorld (textRequest "buatkan gambar kucing")
                        "gemini_key" "hf_key" []).1
          = Done (Some (200%Z,
                        {| Response := acknowledgement;
                           ImageBase64 := base64.EncodeToString pixels;
                           Error := "" |}))) as Hrun by (by vm_compute).
  split; [exact Hrun |].
  apply (image_in_response_means_generated warmingWorld noUnicode string
           braceIsError id parseEmptyHistory sniffNothing
           (textRequest "buatkan gambar kucing") "gemini_key" "hf_key" []
           200%Z _ Hrun).
  by vm_compute.
Defined.

Lemma text_chat_end_to_end_witness :
  handleChatIn warmingWorld (textRequest "halo") "gemini_key" "hf_key" []
  = (Done (Some (200%Z, {| Response := "Halo!";
                            ImageBase64 := "";
                            Error := "" |})),
     [ EvNewClient "gemini_key" None;
       EvGenerateContent "gemini_key" "gemini-1.5-flash" [genai.Text "halo"]
                         (Ok (textReply "Halo!")) ]).
Proof.
  apply (text_chat_end_to_end warmingWorld noUnicode string braceIsError id
           parseEmptyHistory sniffNothing (textRequest "halo") [] "halo"
           "halo" "gemini_key" "hf_key" [] (textRequest_Parsed "halo"));
    reflexivity.
Defined.

Lemma image_chat_end_to_end_witness :
  handleChatIn warmingWorld (uploadRequest "" "CAT.PNG" pixels)
               "gemini_key" "hf_key" []
  = (Done (Some (200%Z, {| Response := "Halo!";
                            ImageBase64 := "";
                            Error := "" |})),
     [ EvNewClient "gemini_key" None;
       EvGenerateContent "gemini_key" "gemini-1.5-flash"
         [genai.Text defaultImagePrompt; genai.ImageData "image/png" pixels]
         (Ok (textReply "Halo!")) ])
  ∧ map blobMIMEType
        [genai.Text defaultImagePrompt; genai.ImageData "image/png" pixels]
    = [None; Some "image/image/png"].
Proof.
  destruct (image_chat_end_to_end warmingWorld noUnicode string braceIsError
              id parseEmptyHistory sniffNothing
              (uploadRequest "" "CAT.PNG" pixels)
              [] "" "CAT.PNG" pixels "gemini_key" "hf_key" []
              (uploadRequest_Parsed _ _ _) eq_refl eq_refl)
    as (Hrun & Hblob & _).
  split; [exact Hrun | exact Hblob].
Defined.

(** Gemini answers with one candidate that has no content. *)
Definition hollowWorld : Upstream :=
  {| roundTrip := λ _ _ _, Err "connection refused";
     dialGemini := λ _ _, None;
     geminiReply := λ _ _ _ _,
       Ok {| genai.Candidates := [ {| genai.Content := None |} ] |} |}.

(** A first candidate without content makes either handler panic after the
    model was called: nothing is written. *)
Example hollow_reply_panics :
  handleChatIn hollowWorld (textRequest "halo") "gemini_key" "hf_key" []
  = (Panic,
     [ EvNewClient "gemini_key" None;
       EvGenerateContent "gemini_key" "gemini-1.5-flash" [genai.Text "halo"]
         (Ok {| genai.Candidates := [ {| genai.Content := None |} ] |}) ])
  ∧ (handleChatIn hollowWorld (uploadRequest "" "CAT.PNG" pixels)
                  "gemini_key" "hf_key" []).1 = Panic.
Proof. by vm_compute. Qed.
